(** * Tiered object store, cache manager and quota check: a shallow embedding

    The development follows three classes of the repository:
    - [ObjectStorage] (store / retrieve / delete / moveTier over the hot, warm
      and cold directories, with the in-memory deduplication map),
    - [CacheManager] (the in-process [memoryCache] map in front of the
      [cache_entries] table),
    - [StorageManager] (quota check and profile creation).

    Node library calls whose code is not part of the repository are kept
    abstract: zlib, the AES cipher and SHA-256 are the fields of the interface
    [Codecs], with the laws assumed about them in [CodecLaws]; the byte length
    of [JSON.stringify] is a section variable.  Clock readings, entropy and
    write failures are explicit arguments of the calls that depend on them. *)

From Stdlib Require Import ZArith QArith List String Ascii Strings.Byte Bool Lia Relations.
Import ListNotations.
Close Scope Q_scope.

Set Implicit Arguments.

(** ** JavaScript values used by the three classes *)

Module JS.

(** A string is truthy unless it is empty; [null] and [undefined] are falsy. *)
Definition truthyStr (s : string) : bool := negb (String.eqb s "").

Definition truthy (o : option string) : bool :=
  match o with
  | Some s => truthyStr s
  | None => false
  end.

(** [n || d] on numbers: [null], [undefined] and [0] give the default. *)
Definition orDefault (n : option Z) (d : Z) : Z :=
  match n with
  | Some v => if (v =? 0)%Z then d else v
  | None => d
  end.

(** [s.includes('/')] *)
Fixpoint includes (c : ascii) (s : string) : bool :=
  match s with
  | EmptyString => false
  | String a r => if Ascii.eqb a c then true else includes c r
  end.

(** [s.split('/')]: the empty string splits into one empty segment. *)
Fixpoint split (c : ascii) (s : string) : list string :=
  match s with
  | EmptyString => [EmptyString]
  | String a r =>
      if Ascii.eqb a c then EmptyString :: split c r
      else match split c r with
           | h :: t => String a h :: t
           | [] => [String a EmptyString]
           end
  end.

(** [l.join('/')] *)
Fixpoint join (c : ascii) (l : list string) : string :=
  match l with
  | [] => EmptyString
  | [x] => x
  | x :: r => (x ++ String c (join c r))%string
  end.

(** [l.slice(1)] *)
Definition slice1 {A : Type} (l : list A) : list A := tl l.

(** A template literal [`${a}/${b}`]. *)
Definition slashed (a b : string) : string := (a ++ String "/" b)%string.

(** One hexadecimal digit, as [Buffer.from(s, 'hex')] reads it. *)
Definition hexDigit (c : ascii) : option N :=
  let n := N_of_ascii c in
  if ((48 <=? n) && (n <=? 57))%N then Some (n - 48)%N
  else if ((97 <=? n) && (n <=? 102))%N then Some (n - 87)%N
  else if ((65 <=? n) && (n <=? 70))%N then Some (n - 55)%N
  else None.

(** [Buffer.from(s, 'hex')]: pairs of digits are decoded until the first pair
    that is not hexadecimal; a trailing single character is dropped. *)
Fixpoint hexDecode (s : string) : list byte :=
  match s with
  | String a (String b r) =>
      match hexDigit a, hexDigit b with
      | Some x, Some y =>
          match Byte.of_N (16 * x + y) with
          | Some v => v :: hexDecode r
          | None => []
          end
      | _, _ => []
      end
  | _ => []
  end.

(** *** [Map] with string keys

    A JavaScript [Map] iterates in insertion order, and [set] on a present key
    keeps the key's position: an association list, oldest binding first. *)
Section MapOps.
Variable V : Type.

Definition map := list (string * V).

Fixpoint get (m : map) (k : string) : option V :=
  match m with
  | [] => None
  | (k', v) :: r => if String.eqb k' k then Some v else get r k
  end.

Definition has (m : map) (k : string) : bool :=
  match get m k with Some _ => true | None => false end.

Fixpoint set (m : map) (k : string) (v : V) : map :=
  match m with
  | [] => [(k, v)]
  | (k', v') :: r =>
      if String.eqb k' k then (k, v) :: r else (k', v') :: set r k v
  end.

Definition delete (m : map) (k : string) : map :=
  filter (fun kv => negb (String.eqb (fst kv) k)) m.

Definition size (m : map) : nat := List.length m.

End MapOps.

(** [buf.toString('hex')]: two lower-case digits per byte. *)
Definition hexChar (n : N) : ascii :=
  ascii_of_N (if (n <? 10)%N then 48 + n else 87 + n)%N.

Definition hexByte (b : byte) : string :=
  let n := Byte.to_N b in
  String (hexChar (n / 16)) (String (hexChar (n mod 16)) EmptyString).

Fixpoint hexEncode (l : list byte) : string :=
  match l with
  | [] => EmptyString
  | b :: r => (hexByte b ++ hexEncode r)%string
  end.

End JS.

(** ** Results of fallible calls *)

Inductive error :=
| ENOENT              (* fs.readFile / fs.stat / createReadStream on a missing file *)
| FileNotFound        (* retrieve: "File not found in local storage" *)
| InvalidKeyLength    (* createCipheriv / createDecipheriv: key is not 32 bytes *)
| InvalidIV           (* createDecipheriv: initialization vector is not 16 bytes *)
| DecryptError        (* decipher.final rejects the ciphertext *)
| DecompressError     (* gunzip / brotliDecompress rejects the data *)
| IOError             (* fs.writeFile rejects *)
| QuotaExceeded       (* checkQuota: "Quota exceeded for ..." *)
| UniqueViolation     (* insert of a row whose primary key is taken *)
| ProfileNotFound     (* createSnapshot: "Profile not found" *)
| DatabaseError.      (* a statement the database rejects: a value outside
                         int4, a key that is taken, a missing referenced row *)

Inductive result (A : Type) :=
| Ok (a : A)
| Err (e : error).

Arguments Ok {A} a.
Arguments Err {A} e.

Definition bind {A B : Type} (m : result A) (k : A -> result B) : result B :=
  match m with
  | Ok a => k a
  | Err e => Err e
  end.

Notation "x <- m ;; k" := (bind m (fun x => k))
  (at level 61, m at next level, right associativity).

Definition buffer := list byte.

(** ** ObjectStorage *)

Module ObjectStorage.

(** *** Tier directories and the file system

    [this.hotDir], [this.warmDir] and [this.coldDir] are three distinct
    directories under [this.baseDir].  [path.join(tierDir, baseKey)] is the
    pair of the directory and the relative key.  [path.join] also normalises
    its result: two relative keys are the same file exactly when they are the
    same string only for keys in normal form ([normalKey] below), and the
    statements that compare paths say so.  Any file outside the three
    directories, such as the caller's source file, is a [FilePath].

    A file system maps a path to the bytes of the regular file there.
    Directories are not part of it: [fs.mkdir(..., { recursive: true })] has
    nothing to do in it, and a path that holds a directory reads as [None].
    So [exists_] and [rename] below are the code's [fs.access] and
    [fs.rename] on paths that hold a file or nothing. *)

Inductive tierDir := HotDir | WarmDir | ColdDir.

Inductive path :=
| TierPath (d : tierDir) (rel : string)
| FilePath (p : string).

Definition tierDir_eqb (a b : tierDir) : bool :=
  match a, b with
  | HotDir, HotDir | WarmDir, WarmDir | ColdDir, ColdDir => true
  | _, _ => false
  end.

Definition path_eqb (p q : path) : bool :=
  match p, q with
  | TierPath d r, TierPath d' r' => tierDir_eqb d d' && String.eqb r r'
  | FilePath a, FilePath b => String.eqb a b
  | _, _ => false
  end.

Definition fileSystem := path -> option buffer.

Definition emptyFs : fileSystem := fun _ => None.

Definition writeTo (fs : fileSystem) (p : path) (d : buffer) : fileSystem :=
  fun q => if path_eqb q p then Some d else fs q.

Definition unlink (fs : fileSystem) (p : path) : fileSystem :=
  fun q => if path_eqb q p then None else fs q.

(** [fs.rename(from, to)]: rejects when [from] is missing, replaces [to]. *)
Definition rename (fs : fileSystem) (from to : path) : result fileSystem :=
  match fs from with
  | None => Err ENOENT
  | Some d => if path_eqb from to then Ok fs else Ok (writeTo (unlink fs from) to d)
  end.

(** What a rejected [fs.writeFile] can leave behind.  [WriteFault None]: the
    object file could not be opened, nothing was created.  [WriteFault (Some n)]:
    the object file was opened (created or truncated) and the write stopped
    after [n] bytes.  [IndexSaveFault]: writing [dedup_index.json] rejected
    (the saved snapshot is then left as it was). *)
Inductive ioFault :=
| NoFault
| WriteFault (visible : option nat)
| IndexSaveFault.

Definition writeFile (flt : ioFault) (fs : fileSystem) (p : path) (d : buffer)
  : fileSystem * result unit :=
  match flt with
  | WriteFault None => (fs, Err IOError)
  | WriteFault (Some n) => (writeTo fs p (firstn n d), Err IOError)
  | _ => (writeTo fs p d, Ok tt)
  end.

Definition getTierDirectory (tier : string) : tierDir :=
  if String.eqb tier "hot" then HotDir
  else if String.eqb tier "warm" then WarmDir
  else if String.eqb tier "cold" then ColdDir
  else WarmDir.

(** [key.includes('/') ? key.split('/').slice(1).join('/') : key] *)
Definition baseKeyOf (key : string) : string :=
  if JS.includes "/" key then JS.join "/" (JS.slice1 (JS.split "/" key)) else key.

(** A segment that [path.join] keeps: not empty, not [.] and not [..]. *)
Definition properName (s : string) : bool :=
  negb (String.eqb s "") && negb (String.eqb s ".") && negb (String.eqb s "..").

(** A relative key in normal form: [path.join(tierDir, k)] is [tierDir/k],
    letter for letter, and stays inside [tierDir]. *)
Definition normalKey (k : string) : bool :=
  forallb properName (JS.split "/" k).

(** *** Object state

    [deduplicationMap] is the in-memory [Map] hash -> storage key;
    [savedIndex] is the content of the file [dedup_index.json] in
    [this.baseDir], the last snapshot of the map written there ([None] while
    the file does not exist).  That one file is kept in this field and not in
    [files]: [files] holds the object files and the callers' files.
    [useReplitStorage] is [false] from the constructor on and is reset to
    [false] by [initialize]: the branches it guards never run and are left
    out. *)

Record config := {
  compressionLevel : Z;
  enableDeduplication : bool
}.

Record state := {
  files : fileSystem;
  deduplicationMap : JS.map string;
  savedIndex : option (JS.map string)
}.

Record storeOptions := {
  opt_tier : string;
  opt_compress : bool;
  opt_compressionAlgorithm : string;
  opt_encrypt : bool;
  opt_encryptionKey : option string;
  opt_enableDedup : bool
}.

(** The defaults of the destructuring in [store]. *)
Definition defaultStoreOptions (cfg : config) : storeOptions :=
  {| opt_tier := "warm"; opt_compress := true; opt_compressionAlgorithm := "gzip";
     opt_encrypt := false; opt_encryptionKey := None;
     opt_enableDedup := enableDeduplication cfg |}.

Record retrieveOptions := {
  opt_decompress : bool;
  opt_algorithm : string;
  opt_decrypt : bool;
  opt_decryptionKey : option string
}.

Definition defaultRetrieveOptions : retrieveOptions :=
  {| opt_decompress := true; opt_algorithm := "gzip";
     opt_decrypt := false; opt_decryptionKey := None |}.

(** The object returned on a deduplication hit ([deduplicated: true]). *)
Record dedupHit := {
  hit_key : string;
  hit_path : string;
  hit_dedupHash : string;
  hit_originalSize : Z;
  hit_storedSize : Z;
  hit_tier : string
}.

(** The object returned after a write ([deduplicated: false]). *)
Record stored := {
  key : string;
  path_ : string;
  tier : string;
  originalSize : Z;
  compressedSize : Z;
  compressionRatio : Q;
  dedupHash : option string;
  compressed : bool;
  encrypted : bool;
  compressionAlgorithm : option string
}.

Inductive storeResult :=
| Deduplicated (r : dedupHit)
| Stored (r : stored).

Definition deduplicated (r : storeResult) : bool :=
  match r with
  | Deduplicated _ => true
  | Stored _ => false
  end.

(** [originalSize > 0 ? (1 - compressedSize / originalSize) : 0], in exact
    rational arithmetic. *)
Definition ratio (originalSize compressedSize : Z) : Q :=
  if (originalSize >? 0)%Z
  then (1 - inject_Z compressedSize / inject_Z originalSize)%Q
  else 0%Q.

(** [crypto.randomBytes(n)], reading an entropy source. *)
Definition randomBytes (rnd : nat -> byte) (n : nat) : buffer :=
  List.map rnd (seq 0 n).

(** The first entry of the map, in iteration order, whose value is [p]. *)
Fixpoint findByPath (m : JS.map string) (p : string) : option string :=
  match m with
  | [] => None
  | (h, q) :: r => if String.eqb q p then Some h else findByPath r p
  end.

(** SHA-256 (hex digest), zlib and the AES-256-CBC cipher, as Node provides
    them: [aesEncrypt key iv data] is [cipher.update(data)] followed by
    [cipher.final()]; the decoders reject malformed input. *)
Class Codecs := {
  sha256 : buffer -> string;
  gzip : Z -> buffer -> buffer;
  gunzip : buffer -> option buffer;
  brotliCompress : buffer -> buffer;
  brotliDecompress : buffer -> option buffer;
  aesEncrypt : buffer -> buffer -> buffer -> buffer;
  aesDecrypt : buffer -> buffer -> buffer -> option buffer
}.

(** What the library guarantees: a hex digest is not the empty string, and
    decoding inverts encoding. *)
Class CodecLaws (C : Codecs) : Prop := {
  sha256_truthy : forall d, JS.truthyStr (sha256 d) = true;
  gunzip_gzip : forall lvl d, gunzip (gzip lvl d) = Some d;
  brotli_inverse : forall d, brotliDecompress (brotliCompress d) = Some d;
  aes_inverse : forall k iv d,
    List.length k = 32 -> List.length iv = 16 ->
    aesDecrypt k iv (aesEncrypt k iv d) = Some d
}.

Section Codecs.

Context {C : Codecs}.

Definition computeHash (fs : fileSystem) (filePath : path) : result string :=
  match fs filePath with
  | Some d => Ok (sha256 d)
  | None => Err ENOENT
  end.

Definition compressData (cfg : config) (data : buffer) (algorithm : string) : buffer :=
  if String.eqb algorithm "brotli" then brotliCompress data
  else gzip (compressionLevel cfg) data.

Definition decompressData (data : buffer) (algorithm : string) : result buffer :=
  match (if String.eqb algorithm "brotli" then brotliDecompress data else gunzip data) with
  | Some d => Ok d
  | None => Err DecompressError
  end.

(** [Buffer.from(k.substring(0, 64), 'hex')], accepted by [createCipheriv]
    and [createDecipheriv] for aes-256-cbc only when it has 32 bytes. *)
Definition cipherKey (k : string) : result buffer :=
  let kb := JS.hexDecode (substring 0 64 k) in
  if Nat.eqb (List.length kb) 32 then Ok kb else Err InvalidKeyLength.

(** Lines 132-137: the bytes [store] hands to the cipher, compressed when
    asked to. *)
Definition compressStep (cfg : config) (o : storeOptions) (data : buffer)
  : buffer :=
  if opt_compress o then compressData cfg data (opt_compressionAlgorithm o) else data.

(** Lines 139-145: encrypt when [encrypt && encryptionKey]. *)
Definition encryptStep (rnd : nat -> byte) (o : storeOptions) (data : buffer)
  : result buffer :=
  match opt_encryptionKey o with
  | Some k =>
      if opt_encrypt o && JS.truthyStr k then
        let iv := randomBytes rnd 16 in
        kb <- cipherKey k ;;
        Ok (iv ++ aesEncrypt kb iv data)
      else Ok data
  | None => Ok data
  end.

(** Lines 225-231: decrypt when [decrypt && decryptionKey].
    [createDecipheriv] looks at the length of the IV first and at the length
    of the key second. *)
Definition decryptStep (o : retrieveOptions) (data : buffer) : result buffer :=
  match opt_decryptionKey o with
  | Some k =>
      if opt_decrypt o && JS.truthyStr k then
        let iv := firstn 16 data in
        let encrypted := skipn 16 data in
        if Nat.eqb (List.length iv) 16 then
          kb <- cipherKey k ;;
          match aesDecrypt kb iv encrypted with
          | Some d => Ok d
          | None => Err DecryptError
          end
        else Err InvalidIV
      else Ok data
  | None => Ok data
  end.

(** Lines 233-236. *)
Definition decompressStep (o : retrieveOptions) (data : buffer) : result buffer :=
  if opt_decompress o then decompressData data (opt_algorithm o) else Ok data.

(** Lines 128-182 of [store]: the path taken when there is no deduplication hit. *)
Definition storeNew (cfg : config) (flt : ioFault) (rnd : nat -> byte) (st : state)
  (key0 : string) (filePath : path) (o : storeOptions) (hash : option string)
  : state * result storeResult :=
  match files st filePath with
  | None => (st, Err ENOENT)
  | Some data =>
      let originalSize := Z.of_nat (List.length data) in
      let data1 := compressStep cfg o data in
      let compressedSize := if opt_compress o
                            then Z.of_nat (List.length data1) else originalSize in
      match encryptStep rnd o data1 with
      | Err e => (st, Err e)
      | Ok data2 =>
          let storageKey := JS.slashed (opt_tier o) key0 in
          let localCachePath := TierPath (getTierDirectory (opt_tier o)) key0 in
          match writeFile flt (files st) localCachePath data2 with
          | (fs', Err e) =>
              ({| files := fs'; deduplicationMap := deduplicationMap st;
                  savedIndex := savedIndex st |}, Err e)
          | (fs', Ok _) =>
              let res := Stored
                {| key := storageKey; path_ := storageKey; tier := opt_tier o;
                   originalSize := originalSize; compressedSize := compressedSize;
                   compressionRatio := ratio originalSize compressedSize;
                   dedupHash := hash;
                   compressed := opt_compress o; encrypted := opt_encrypt o;
                   compressionAlgorithm :=
                     if opt_compress o then Some (opt_compressionAlgorithm o) else None |} in
              if opt_enableDedup o && JS.truthy hash then
                let m' := match hash with
                          | Some h => JS.set (deduplicationMap st) h storageKey
                          | None => deduplicationMap st
                          end in
                match flt with
                | IndexSaveFault =>
                    ({| files := fs'; deduplicationMap := m';
                        savedIndex := savedIndex st |}, Err IOError)
                | _ =>
                    ({| files := fs'; deduplicationMap := m';
                        savedIndex := Some m' |}, Ok res)
                end
              else
                ({| files := fs'; deduplicationMap := deduplicationMap st;
                    savedIndex := savedIndex st |}, Ok res)
          end
      end
  end.

(** [store(key, filePath, options)] *)
Definition store (cfg : config) (flt : ioFault) (rnd : nat -> byte) (st : state)
  (key0 : string) (filePath : path) (o : storeOptions)
  : state * result storeResult :=
  if opt_enableDedup o then
    match computeHash (files st) filePath with
    | Err e => (st, Err e)
    | Ok h =>
        match JS.get (deduplicationMap st) h with
        | Some existingKey =>
            match files st filePath with
            | Some d =>
                (st, Ok (Deduplicated
                  {| hit_key := existingKey; hit_path := existingKey;
                     hit_dedupHash := h;
                     hit_originalSize := Z.of_nat (List.length d);
                     hit_storedSize := 0; hit_tier := opt_tier o |}))
            | None => (st, Err ENOENT)
            end
        | None => storeNew cfg flt rnd st key0 filePath o (Some h)
        end
    end
  else storeNew cfg flt rnd st key0 filePath o None.

(** [retrieve(key, tier, options)]: read, then decrypt, then decompress. *)
Definition readLocal (st : state) (key0 tier0 : string) : result buffer :=
  match files st (TierPath (getTierDirectory tier0) (baseKeyOf key0)) with
  | Some d => Ok d
  | None => Err FileNotFound
  end.

Definition retrieve (st : state) (key0 tier0 : string) (o : retrieveOptions)
  : result buffer :=
  data <- readLocal st key0 tier0 ;;
  data <- decryptStep o data ;;
  decompressStep o data.

(** [exists(key, tier)] *)
Definition exists_ (st : state) (key0 tier0 : string) : bool :=
  match files st (TierPath (getTierDirectory tier0) (baseKeyOf key0)) with
  | Some _ => true
  | None => false
  end.

(** [delete(key, tier)]: unlink (a missing file is ignored), then drop the
    first index entry whose value is the key as given.  Always returns [true]. *)
Definition delete (st : state) (key0 tier0 : string) : state * bool :=
  let fs' := unlink (files st) (TierPath (getTierDirectory tier0) (baseKeyOf key0)) in
  match findByPath (deduplicationMap st) key0 with
  | Some h =>
      let m' := JS.delete (deduplicationMap st) h in
      ({| files := fs'; deduplicationMap := m'; savedIndex := Some m' |}, true)
  | None =>
      ({| files := fs'; deduplicationMap := deduplicationMap st;
          savedIndex := savedIndex st |}, true)
  end.

(** [moveTier(key, fromTier, toTier)] in its two effects: first the rename in
    the local directories (a failure is caught and logged), then the update of
    the index entry that names the old storage key. *)
Definition moveTierRename (st : state) (key0 fromTier toTier : string) : state :=
  let baseKey := baseKeyOf key0 in
  match rename (files st) (TierPath (getTierDirectory fromTier) baseKey)
                          (TierPath (getTierDirectory toTier) baseKey) with
  | Ok fs' => {| files := fs'; deduplicationMap := deduplicationMap st;
                 savedIndex := savedIndex st |}
  | Err _ => st
  end.

Definition moveTierIndex (st : state) (key0 fromTier toTier : string) : state :=
  let baseKey := baseKeyOf key0 in
  let oldStorageKey := JS.slashed fromTier baseKey in
  let newStorageKey := JS.slashed toTier baseKey in
  match findByPath (deduplicationMap st) oldStorageKey with
  | Some h =>
      let m' := JS.set (deduplicationMap st) h newStorageKey in
      {| files := files st; deduplicationMap := m'; savedIndex := Some m' |}
  | None => st
  end.

Definition moveTier (st : state) (key0 fromTier toTier : string) : state * string :=
  let st1 := moveTierRename st key0 fromTier toTier in
  let st2 := moveTierIndex st1 key0 fromTier toTier in
  (st2, JS.slashed toTier (baseKeyOf key0)).

End Codecs.

(** The options [retrieve] must be given to undo what [store] did under [o]. *)
Definition matching (o : storeOptions) : retrieveOptions :=
  {| opt_decompress := opt_compress o;
     opt_algorithm := opt_compressionAlgorithm o;
     opt_decrypt := opt_encrypt o;
     opt_decryptionKey := opt_encryptionKey o |}.

(** A key [createCipheriv] accepts: its first 64 characters decode to 32 bytes. *)
Definition validKey (k : string) : Prop :=
  List.length (JS.hexDecode (substring 0 64 k)) = 32%nat.

(** A [Map] has one entry per hash. *)
Definition distinctHashes (m : JS.map string) : Prop := NoDup (List.map fst m).

(** The ratio a result carries, if it carries one (a deduplication hit and a
    failure carry none). *)
Definition returnedRatio (res : result storeResult) : option Q :=
  match res with
  | Ok (Stored r) => Some (compressionRatio r)
  | _ => None
  end.

(** Whether a call returned the object of a deduplication hit. *)
Definition deduplicated_result (res : result storeResult) : bool :=
  match res with
  | Ok r => deduplicated r
  | Err _ => false
  end.

(** The [encrypted] field of a result: the object of a deduplication hit has
    no such field ([undefined]). *)
Definition returnedEncrypted (res : result storeResult) : option bool :=
  match res with
  | Ok (Stored r) => Some (encrypted r)
  | _ => None
  end.

End ObjectStorage.

(** ** CacheManager *)

Module CacheManager.

Local Open Scope Z_scope.

Section Cache.

(** Cached values are JSON values; [byteLength v] is
    [Buffer.byteLength(JSON.stringify(v))].  Times are milliseconds since the
    epoch, as [Date.now()] and [getTime()] give them. *)
Variable V : Type.
Variable byteLength : V -> Z.

Record memEntry := {
  value : V;
  expiresAt : Z;
  sizeBytes : Z
}.

Record stats := {
  hits : Z;
  misses : Z;
  evictions : Z;
  totalMemoryBytes : Z
}.

(** A row of [cache_entries]; [expires_at] and [size_bytes] are nullable. *)
Record row := {
  row_value : V;
  row_expiresAt : option Z;
  row_hitCount : Z;
  row_lastAccessedAt : Z;
  row_sizeBytes : option Z
}.

Record config := {
  maxMemoryMB : Z;
  defaultTTL : Z
}.

(** The constructor: [config.maxMemoryMB || 100], [config.defaultTTL || 3600000]. *)
Definition newConfig (maxMB ttl : option Z) : config :=
  {| maxMemoryMB := JS.orDefault maxMB 100; defaultTTL := JS.orDefault ttl 3600000 |}.

Record state := {
  memoryCache : JS.map memEntry;
  stat : stats;
  db : JS.map row
}.

Definition initial (table : JS.map row) : state :=
  {| memoryCache := [];
     stat := {| hits := 0; misses := 0; evictions := 0; totalMemoryBytes := 0 |};
     db := table |}.

Definition maxBytes (cfg : config) : Z := maxMemoryMB cfg * 1024 * 1024.

(** The [for] loop of [evictIfNeeded]: [oldestTime] starts at [Infinity]
    ([None]); an entry replaces the candidate only when its [expiresAt] is
    strictly smaller. *)
Fixpoint scanOldest (m : JS.map memEntry) (oldestKey : option string)
  (oldestTime : option Z) : option string :=
  match m with
  | [] => oldestKey
  | (k, e) :: r =>
      let smaller := match oldestTime with
                     | None => true
                     | Some t => expiresAt e <? t
                     end in
      if smaller then scanOldest r (Some k) (Some (expiresAt e))
      else scanOldest r oldestKey oldestTime
  end.

Definition evictOne (st : state) (k : string) (entry : memEntry) : state :=
  {| memoryCache := JS.delete (memoryCache st) k;
     stat := {| hits := hits (stat st); misses := misses (stat st);
                evictions := evictions (stat st) + 1;
                totalMemoryBytes := totalMemoryBytes (stat st) - sizeBytes entry |};
     db := db st |}.

(** The [while] loop, one iteration per unit of fuel.  [if (oldestKey)] tests
    truthiness: it fails for [null] and for the empty string. *)
Fixpoint evictLoop (fuel : nat) (cfg : config) (st : state) : state :=
  match fuel with
  | O => st
  | S n =>
      if (totalMemoryBytes (stat st) >? maxBytes cfg)
         && (0 <? JS.size (memoryCache st))%nat
      then
        match scanOldest (memoryCache st) None None with
        | Some k =>
            if JS.truthyStr k then
              match JS.get (memoryCache st) k with
              | Some entry => evictLoop n cfg (evictOne st k entry)
              | None => st
              end
            else st
        | None => st
        end
      else st
  end.

(** Each iteration deletes a key, so the number of entries bounds the number
    of iterations. *)
Definition evictIfNeeded (cfg : config) (st : state) : state :=
  evictLoop (JS.size (memoryCache st)) cfg st.

(** [incrementHitCount(key)] *)
Definition incrementHitCount (now : Z) (table : JS.map row) (k : string) : JS.map row :=
  match JS.get table k with
  | Some r =>
      JS.set table k
        {| row_value := row_value r; row_expiresAt := row_expiresAt r;
           row_hitCount := row_hitCount r + 1; row_lastAccessedAt := now;
           row_sizeBytes := row_sizeBytes r |}
  | None => table
  end.

Definition withHit (st : state) (m : JS.map memEntry) (table : JS.map row) : state :=
  {| memoryCache := m;
     stat := {| hits := hits (stat st) + 1; misses := misses (stat st);
                evictions := evictions (stat st);
                totalMemoryBytes := totalMemoryBytes (stat st) |};
     db := table |}.

Definition withMiss (st : state) (m : JS.map memEntry) (table : JS.map row) : state :=
  {| memoryCache := m;
     stat := {| hits := hits (stat st); misses := misses (stat st) + 1;
                evictions := evictions (stat st);
                totalMemoryBytes := totalMemoryBytes (stat st) |};
     db := table |}.

(** Lines 70-100 of [get]: the database cache, reached with the memory map [m]
    left by the first part. *)
Definition getFromDb (cfg : config) (now : Z) (st : state) (m : JS.map memEntry)
  (k : string) : state * option V :=
  match JS.get (db st) k with
  | Some entry =>
      let live := match row_expiresAt entry with
                  | None => true
                  | Some t => t >? now
                  end in
      if live then
        let promoted :=
          {| value := row_value entry;
             expiresAt := JS.orDefault (row_expiresAt entry) (now + defaultTTL cfg);
             sizeBytes := JS.orDefault (row_sizeBytes entry) 0 |} in
        (withHit st (JS.set m k promoted) (incrementHitCount now (db st) k),
         Some (row_value entry))
      else (withMiss st m (JS.delete (db st) k), None)
  | None => (withMiss st m (db st), None)
  end.

(** [get(key)] at clock reading [now]. *)
Definition get (cfg : config) (now : Z) (st : state) (k : string) : state * option V :=
  match JS.get (memoryCache st) k with
  | Some memEntry =>
      if expiresAt memEntry >? now then
        (withHit st (memoryCache st) (incrementHitCount now (db st) k),
         Some (value memEntry))
      else getFromDb cfg now st (JS.delete (memoryCache st) k) k
  | None => getFromDb cfg now st (memoryCache st) k
  end.

(** The upsert of [set]: a new row starts with [hitCount: 0]; on conflict the
    hit count is kept. *)
Definition upsert (now : Z) (table : JS.map row) (k : string) (v : V)
  (expires size : Z) : JS.map row :=
  let count := match JS.get table k with
               | Some r => row_hitCount r
               | None => 0
               end in
  JS.set table k
    {| row_value := v; row_expiresAt := Some expires; row_hitCount := count;
       row_lastAccessedAt := now; row_sizeBytes := Some size |}.

(** [set(key, value, ttlMs)] at clock reading [now]; returns [true]. *)
Definition set (cfg : config) (now : Z) (st : state) (k : string) (v : V)
  (ttlMs : option Z) : state :=
  let expires := now + JS.orDefault ttlMs (defaultTTL cfg) in
  let size := byteLength v in
  let st1 :=
    {| memoryCache :=
         JS.set (memoryCache st) k {| value := v; expiresAt := expires; sizeBytes := size |};
       stat := {| hits := hits (stat st); misses := misses (stat st);
                  evictions := evictions (stat st);
                  totalMemoryBytes := totalMemoryBytes (stat st) + size |};
       db := db st |} in
  let st2 := evictIfNeeded cfg st1 in
  {| memoryCache := memoryCache st2; stat := stat st2;
     db := upsert now (db st2) k v expires size |}.

(** [delete(key)] *)
Definition delete (st : state) (k : string) : state :=
  {| memoryCache := JS.delete (memoryCache st) k;
     stat := stat st;
     db := JS.delete (db st) k |}.

(** [clear()] *)
Definition clear (st : state) : state :=
  {| memoryCache := [];
     stat := {| hits := hits (stat st); misses := misses (stat st);
                evictions := evictions (stat st); totalMemoryBytes := 0 |};
     db := [] |}.

(** One turn of the loop of [cleanupExpired]. *)
Definition cleanupEntry (now : Z) (acc : JS.map memEntry * Z) (kv : string * memEntry)
  : JS.map memEntry * Z :=
  if expiresAt (snd kv) <? now
  then (JS.delete (fst acc) (fst kv), snd acc - sizeBytes (snd kv))
  else acc.

(** [cleanupExpired()] at clock reading [now]: rows whose [expires_at] is
    null are not matched by [lt(expiresAt, now)]. *)
Definition cleanupExpired (now : Z) (st : state) : state :=
  let '(m, total) :=
    fold_left (cleanupEntry now) (memoryCache st)
              (memoryCache st, totalMemoryBytes (stat st)) in
  {| memoryCache := m;
     stat := {| hits := hits (stat st); misses := misses (stat st);
                evictions := evictions (stat st); totalMemoryBytes := total |};
     db := filter (fun kr => match row_expiresAt (snd kr) with
                             | Some t => negb (t <? now)
                             | None => true
                             end) (db st) |}.

(** *** Sequences of calls *)

Inductive op :=
| Set_ (k : string) (v : V) (ttlMs : option Z)
| Get (k : string)
| Delete (k : string)
| Clear
| CleanupExpired.

(** One call, made at clock reading [now]. *)
Definition step (cfg : config) (st : state) (c : Z * op) : state :=
  match snd c with
  | Set_ k v ttl => set cfg (fst c) st k v ttl
  | Get k => fst (get cfg (fst c) st k)
  | Delete k => delete st k
  | Clear => clear st
  | CleanupExpired => cleanupExpired (fst c) st
  end.

Definition run (cfg : config) (st : state) (calls : list (Z * op)) : state :=
  fold_left (step cfg) calls st.

(** The sum of [sizeBytes] over the entries of the memory map. *)
Definition memoryBytes (m : JS.map memEntry) : Z :=
  fold_right (fun kv acc => sizeBytes (snd kv) + acc) 0 m.

Definition accounted (st : state) : Prop :=
  totalMemoryBytes (stat st) = memoryBytes (memoryCache st).

(** [(k, e)] is an entry whose [expiresAt] no other entry undercuts. *)
Definition soonest (m : JS.map memEntry) (k : string) (e : memEntry) : Prop :=
  In (k, e) m /\ forall k' e', In (k', e') m -> expiresAt e <= expiresAt e'.

(** One eviction: over budget, an entry with the smallest [expiresAt] leaves
    the memory map, its size leaves the tracked total, and the table of the
    durable layer stays as it is. *)
Inductive evicts (cfg : config) : state -> state -> Prop :=
| evicts_soonest (st : state) (k : string) (e : memEntry) :
    totalMemoryBytes (stat st) > maxBytes cfg ->
    soonest (memoryCache st) k e ->
    evicts cfg st (evictOne st k e).

(** A [Map] has one binding per key. *)
Definition distinctKeys (m : JS.map memEntry) : Prop := NoDup (List.map fst m).

Definition truthyKeys (m : JS.map memEntry) : Prop :=
  forall k e, In (k, e) m -> JS.truthyStr k = true.

(** The test of the sweep in [cleanupExpired]: [entry.expiresAt < now]. *)
Definition expired (now : Z) (kv : string * memEntry) : bool :=
  expiresAt (snd kv) <? now.

(** Write-through: every entry of the memory map has a row in the table with
    the same value and, unless the row has no expiry time, the same expiry
    time. *)
Definition mirrored (st : state) : Prop :=
  forall k e, JS.get (memoryCache st) k = Some e ->
    exists r, JS.get (db st) k = Some r /\ row_value r = value e /\
              (row_expiresAt r = None \/ row_expiresAt r = Some (expiresAt e)).

(** Lines 108-115 of [set]: the state in which [set] calls [evictIfNeeded]. *)
Definition setMemory (cfg : config) (now : Z) (st : state) (k : string) (v : V)
  (ttlMs : option Z) : state :=
  {| memoryCache :=
       JS.set (memoryCache st) k
         {| value := v; expiresAt := now + JS.orDefault ttlMs (defaultTTL cfg);
            sizeBytes := byteLength v |};
     stat := {| hits := hits (stat st); misses := misses (stat st);
                evictions := evictions (stat st);
                totalMemoryBytes := totalMemoryBytes (stat st) + byteLength v |};
     db := db st |}.

(** The keys given to [set] and [get] in a sequence of calls are not empty. *)
Definition nonEmptyKey (c : op) : Prop :=
  match c with
  | Set_ k _ _ | Get k => JS.truthyStr k = true
  | _ => True
  end.

Definition nonEmptyKeys (calls : list (Z * op)) : Prop :=
  Forall (fun c => nonEmptyKey (snd c)) calls.

(** *** Rows the table accepts

    [set] builds [new Date(Date.now() + ttl)] and inserts it with the size
    into [cache_entries]; a failed insert is caught and logged.  The
    definition of [set] above is the call when the insert goes through:
    the expiry time is a date the table stores (taken here between 1970 and
    the end of the year 9999; beyond 8.64e15 ms [new Date] is an Invalid
    Date), the size fits the [integer] column and the key, a [text], has no
    NUL character.  Values are JSON values that the [jsonb] column returns as
    they were written. *)
Definition lastStoredDate : Z := 253402300799999.
Definition maxInt4 : Z := 2147483647.

Definition insertable (cfg : config) (now : Z) (k : string) (v : V)
  (ttlMs : option Z) : Prop :=
  0 <= now + JS.orDefault ttlMs (defaultTTL cfg) <= lastStoredDate /\
  0 <= byteLength v <= maxInt4 /\
  JS.includes "000" k = false.

Definition insertableCall (cfg : config) (c : Z * op) : Prop :=
  match snd c with
  | Set_ k v ttlMs => insertable cfg (fst c) k v ttlMs
  | _ => True
  end.

(** [getStats()]: the counters, the hit rate in percent and the memory use in
    megabytes, both in exact rational arithmetic. *)
Record statsView := {
  view_stats : stats;
  hitRate : Q;
  memoryUsageMB : Q;
  memoryCacheSize : nat
}.

Definition getStats (st : state) : statsView :=
  let requests := hits (stat st) + misses (stat st) in
  let rate := if requests >? 0
              then (inject_Z (hits (stat st)) / inject_Z requests)%Q
              else 0%Q in
  {| view_stats := stat st;
     hitRate := (rate * 100)%Q;
     memoryUsageMB := (inject_Z (totalMemoryBytes (stat st)) / inject_Z (1024 * 1024))%Q;
     memoryCacheSize := JS.size (memoryCache st) |}.

End Cache.

End CacheManager.

(** ** StorageManager: quotas and profile creation *)

Module StorageManager.

Local Open Scope Z_scope.

(** A row of [profiles], with the columns [createProfile] sets. *)
Record profile := {
  id : string;
  name : string;
  description : option string;
  storageTier : string;
  accessCount : Z
}.

(** A row of [storage_quotas]; [current_value] and [is_exceeded] are nullable. *)
Record quota := {
  quota_id : string;
  quotaType : string;
  limitValue : Z;
  currentValue : option Z;
  isExceeded : option bool
}.

(** The values the manager puts in its cache. *)
Inductive cached :=
| CachedProfile (p : profile)
| CachedProfiles (l : list profile).

Record performanceMetrics := {
  operations : Z;
  totalTime : Z
}.

Record state := {
  profiles : list profile;
  storageQuotas : list quota;
  cacheManager : CacheManager.state cached;
  metrics : performanceMetrics
}.

(** A JavaScript comparison [a >= b] where [a] may be [null] (read as 0). *)
Definition geNullable (a : option Z) (b : Z) : bool :=
  match a with
  | Some v => v >=? b
  | None => 0 >=? b
  end.

(** [select().from(storageQuotas).where(eq(quotaType, t))], in table order. *)
Definition selectQuotas (table : list quota) (t : string) : list quota :=
  filter (fun q => String.eqb (quotaType q) t) table.

(** [checkQuota(quotaType)]: reads, never writes. *)
Definition checkQuota (st : state) (t : string) : result unit :=
  match selectQuotas (storageQuotas st) t with
  | q :: _ =>
      if geNullable (currentValue q) (limitValue q) then Err QuotaExceeded else Ok tt
  | [] => Ok tt
  end.

(** The SQL update of [updateQuotaUsage]: [NULL + delta] is [NULL]. *)
Definition bumpQuota (t : string) (delta : Z) (q : quota) : quota :=
  if String.eqb (quotaType q) t then
    {| quota_id := quota_id q; quotaType := quotaType q; limitValue := limitValue q;
       currentValue := option_map (fun v => v + delta) (currentValue q);
       isExceeded := option_map (fun v => v + delta >=? limitValue q) (currentValue q) |}
  else q.

(** The table after the update of [updateQuotaUsage], when the database
    accepts it. *)
Definition updateQuotaUsage (st : state) (t : string) (delta : Z) : state :=
  {| profiles := profiles st;
     storageQuotas := List.map (bumpQuota t delta) (storageQuotas st);
     cacheManager := cacheManager st;
     metrics := metrics st |}.

(** [current_value] is an [integer] column (schema.js): 32 bits, signed. *)
Definition int4 (z : Z) : bool := (-2147483648 <=? z) && (z <=? 2147483647).

(** The database accepts the update when [delta], read as an [integer]
    beside [current_value], and every new value of a row of the type fit the
    column; otherwise the statement fails and no row changes. *)
Definition updateAccepted (table : list quota) (t : string) (delta : Z) : bool :=
  int4 delta &&
  forallb (fun q => negb (String.eqb (quotaType q) t) ||
                    match currentValue q with
                    | Some c => int4 (c + delta)
                    | None => true
                    end) table.

(** [updateQuotaUsage(quotaType, delta)] *)
Definition tryUpdateQuotaUsage (st : state) (t : string) (delta : Z) : result state :=
  if updateAccepted (storageQuotas st) t delta
  then Ok (updateQuotaUsage st t delta)
  else Err DatabaseError.

(** Every counter of a type can grow by [n] without leaving its column. *)
Definition hasRoom (table : list quota) (t : string) (n : Z) : Prop :=
  forall q c, In q (selectQuotas table t) -> currentValue q = Some c ->
              -2147483648 <= c /\ c + n <= 2147483647.

(** [initializeQuotas]: the three default rows, in this order.  A row whose
    [id] is taken is skipped ([onConflictDoNothing]); an insert that the
    database rejects is caught and logged.  [limit_value] is an [integer]
    column too. *)
Definition defaultQuotas : list (string * string * Z) :=
  [ ("quota_total_size"%string, "total_size"%string, 10 * 1024 * 1024 * 1024);
    ("quota_profile_count"%string, "profile_count"%string, 100);
    ("quota_snapshot_count"%string, "snapshot_count"%string, 1000) ].

Definition insertQuota (table : list quota) (d : string * string * Z) : list quota :=
  let '(i, t, limit) := d in
  if existsb (fun q => String.eqb (quota_id q) i) table then table
  else if int4 limit then
    table ++ [{| quota_id := i; quotaType := t; limitValue := limit;
                 currentValue := Some 0; isExceeded := Some false |}]
  else table.

Definition initializeQuotas (st : state) : state :=
  {| profiles := profiles st;
     storageQuotas := fold_left insertQuota defaultQuotas (storageQuotas st);
     cacheManager := cacheManager st;
     metrics := metrics st |}.

(** [insert(profiles).values(...).returning()]: [id] is the primary key. *)
Definition insertProfile (st : state) (p : profile) : result state :=
  if existsb (fun q => String.eqb (id q) (id p)) (profiles st)
  then Err UniqueViolation
  else Ok {| profiles := profiles st ++ [p];
             storageQuotas := storageQuotas st;
             cacheManager := cacheManager st;
             metrics := metrics st |}.

Definition trackPerformance (st : state) (duration : Z) : state :=
  {| profiles := profiles st;
     storageQuotas := storageQuotas st;
     cacheManager := cacheManager st;
     metrics := {| operations := operations (metrics st) + 1;
                   totalTime := totalTime (metrics st) + duration |} |}.

Section Manager.

(** [Buffer.byteLength(JSON.stringify(v))] of a cached value, and the
    configuration of the manager's cache. *)
Variable byteLength : cached -> Z.
Variable cacheConfig : CacheManager.config.

(** One call of [createProfile]: [uuid] is what [uuidv4()] returns, [now] the
    clock when the profile is cached, [duration] the elapsed time recorded. *)
Record request := {
  uuid : string;
  req_name : string;
  req_description : option string;
  now : Z;
  duration : Z
}.

Definition cacheSet (st : state) (k : string) (v : cached) (t : Z) : state :=
  {| profiles := profiles st;
     storageQuotas := storageQuotas st;
     cacheManager := CacheManager.set byteLength cacheConfig t (cacheManager st) k v None;
     metrics := metrics st |}.

(** [createProfile(name, description)] *)
Definition createProfile (st : state) (r : request) : state * result profile :=
  match checkQuota st "profile_count" with
  | Err e => (st, Err e)
  | Ok _ =>
      let p := {| id := uuid r; name := req_name r; description := req_description r;
                  storageTier := "hot"; accessCount := 0 |} in
      match insertProfile st p with
      | Err e => (st, Err e)
      | Ok st1 =>
          match tryUpdateQuotaUsage st1 "profile_count" 1 with
          | Err e => (st1, Err e)
          | Ok st2 =>
              let st3 := cacheSet st2 ("profile:" ++ uuid r)%string (CachedProfile p)
                           (now r) in
              (trackPerformance st3 (duration r), Ok p)
          end
      end
  end.

(** A sequence of calls, each made on the state the previous one left. *)
Fixpoint createProfiles (st : state) (rs : list request)
  : state * list (result profile) :=
  match rs with
  | [] => (st, [])
  | r :: rest =>
      let '(st1, res) := createProfile st r in
      let '(st2, more) := createProfiles st1 rest in
      (st2, res :: more)
  end.

(** The first lines of [listProfiles()] and of [getProfile(profileId)]: the
    cache lookup whose result, when there is one, is returned without reading
    the table. *)
Definition listProfilesCached (st : state) (t : Z) : option cached :=
  snd (CacheManager.get cacheConfig t (cacheManager st) "profiles:list").

Definition getProfileCached (st : state) (t : Z) (profileId : string) : option cached :=
  snd (CacheManager.get cacheConfig t (cacheManager st) ("profile:" ++ profileId)%string).

Definition withCache (st : state) (cm : CacheManager.state cached) : state :=
  {| profiles := profiles st;
     storageQuotas := storageQuotas st;
     cacheManager := cm;
     metrics := metrics st |}.

(** The update of [getProfile]: [accessCount + 1] on the rows of the id. *)
Definition touchProfile (profileId : string) (p : profile) : profile :=
  if String.eqb (id p) profileId then
    {| id := id p; name := name p; description := description p;
       storageTier := storageTier p; accessCount := accessCount p + 1 |}
  else p.

(** [getProfile(profileId)]: the cache is asked at clock reading [lookupAt];
    on a miss the row is read, its access count is raised (an [integer]
    column) and the row as read is cached at clock reading [cachedAt].  The
    result is what the caller gets: a cached value, the row, or nothing. *)
Definition getProfile (st : state) (lookupAt cachedAt : Z) (profileId : string)
  : state * result (option cached) :=
  let key := ("profile:" ++ profileId)%string in
  let looked := CacheManager.get cacheConfig lookupAt (cacheManager st) key in
  let st1 := withCache st (fst looked) in
  match snd looked with
  | Some c => (st1, Ok (Some c))
  | None =>
      match find (fun p => String.eqb (id p) profileId) (profiles st1) with
      | Some p =>
          if forallb (fun q => negb (String.eqb (id q) profileId)
                               || int4 (accessCount q + 1)) (profiles st1)
          then
            let st2 := {| profiles := List.map (touchProfile profileId) (profiles st1);
                          storageQuotas := storageQuotas st1;
                          cacheManager := cacheManager st1;
                          metrics := metrics st1 |} in
            (cacheSet st2 key (CachedProfile p) cachedAt, Ok (Some (CachedProfile p)))
          else (st1, Err DatabaseError)
      | None => (st1, Ok None)
      end
  end.

End Manager.

(** The row [createProfile] inserts for a request. *)
Definition profileOf (r : request) : profile :=
  {| id := uuid r; name := req_name r; description := req_description r;
     storageTier := "hot"; accessCount := 0 |}.

(** *** Snapshots

    [createSnapshot] of lines 433-491.  The manager owns an [ObjectStorage]
    and the [snapshots] table; [encryptionKey] is [null] until
    [loadOrGenerateEncryptionKey] has run. *)

Record snapshot := {
  snap_id : string;
  snap_profileId : string;
  snap_name : string;
  snap_filePath : string;
  snap_objectStorageKey : string;
  snap_sizeBytes : Z;
  snap_compressedSize : Z;
  snap_deduplicationHash : option string;
  snap_storageTier : string
}.

Record world := {
  manager : state;
  objectStorage : ObjectStorage.state;
  snapshots : list snapshot;
  encryptionKey : option string
}.

(** One call of [createSnapshot]: the three arguments, what [uuidv4()]
    returns, the clock readings of the cache lookup and of the cache write in
    [getProfile], the elapsed time recorded, the entropy and the write fault
    of [store], and whether the database rejects the update of the profile
    row (its [size_bytes] is an [integer] column that is not modelled). *)
Record snapshotRequest := {
  snap_profile : string;
  snap_label : string;
  snap_source : ObjectStorage.path;
  snap_uuid : string;
  snap_lookupAt : Z;
  snap_cachedAt : Z;
  snap_elapsed : Z;
  snap_entropy : nat -> byte;
  snap_writeFault : ObjectStorage.ioFault;
  snap_profileUpdateRejected : bool
}.

(** The object returned: the inserted row and [savings.compressionRatio]. *)
Record snapshotView := {
  view_row : snapshot;
  view_compressionRatio : Q
}.

Definition withManager (w : world) (m : state) : world :=
  {| manager := m; objectStorage := objectStorage w;
     snapshots := snapshots w; encryptionKey := encryptionKey w |}.

Definition withObjects (w : world) (o : ObjectStorage.state) : world :=
  {| manager := manager w; objectStorage := o;
     snapshots := snapshots w; encryptionKey := encryptionKey w |}.

(** [`snapshots/${profileId}/${snapshotId}.zip`] *)
Definition objectKeyOf (r : snapshotRequest) : string :=
  ("snapshots/" ++ snap_profile r ++ "/" ++ snap_uuid r ++ ".zip")%string.

(** The options [createSnapshot] passes to [store]. *)
Definition snapshotOptions (w : world) : ObjectStorage.storeOptions :=
  {| ObjectStorage.opt_tier := "warm";
     ObjectStorage.opt_compress := true;
     ObjectStorage.opt_compressionAlgorithm := "gzip";
     ObjectStorage.opt_encrypt := true;
     ObjectStorage.opt_encryptionKey := encryptionKey w;
     ObjectStorage.opt_enableDedup := true |}.

(** [insert(snapshots).values(...).returning()]: [id] is the primary key,
    [profile_id] references [profiles.id], and the two sizes are [integer]
    columns. *)
Definition insertSnapshot (w : world) (row : snapshot) : result world :=
  if existsb (fun x => String.eqb (snap_id x) (snap_id row)) (snapshots w)
     || negb (existsb (fun p => String.eqb (id p) (snap_profileId row))
                      (profiles (manager w)))
     || negb (int4 (snap_sizeBytes row) && int4 (snap_compressedSize row))
  then Err DatabaseError
  else Ok {| manager := manager w; objectStorage := objectStorage w;
             snapshots := snapshots w ++ [row]; encryptionKey := encryptionKey w |}.

Section Snapshots.

Context {C : ObjectStorage.Codecs}.

Variable byteLength : cached -> Z.
Variable cacheConfig : CacheManager.config.
Variable objectConfig : ObjectStorage.config.

(** On a deduplication hit [storageResult.compressedSize] is [undefined], and
    the statements after [store] hand it to the database layer.  What that
    layer does with it is no part of the repository: the rest of such a call
    is this parameter. *)
Variable afterHit :
  world -> snapshotRequest -> ObjectStorage.dedupHit -> world * result snapshotView.

(** Lines 456-490, after a [store] that wrote an object. *)
Definition recordSnapshot (w : world) (r : snapshotRequest) (s : ObjectStorage.stored)
  : world * result snapshotView :=
  let row := {| snap_id := snap_uuid r; snap_profileId := snap_profile r;
                snap_name := snap_label r;
                snap_filePath := ObjectStorage.path_ s;
                snap_objectStorageKey := objectKeyOf r;
                snap_sizeBytes := ObjectStorage.originalSize s;
                snap_compressedSize := ObjectStorage.compressedSize s;
                snap_deduplicationHash := ObjectStorage.dedupHash s;
                snap_storageTier := "warm" |} in
  match insertSnapshot w row with
  | Err e => (w, Err e)
  | Ok w1 =>
      if snap_profileUpdateRejected r then (w1, Err DatabaseError)
      else
        match tryUpdateQuotaUsage (manager w1) "snapshot_count" 1 with
        | Err e => (w1, Err e)
        | Ok m2 =>
            match tryUpdateQuotaUsage m2 "total_size" (ObjectStorage.compressedSize s) with
            | Err e => (withManager w1 m2, Err e)
            | Ok m3 =>
                let m4 := withCache m3 (CacheManager.delete (cacheManager m3)
                                          "profiles:list") in
                let m5 := trackPerformance m4 (snap_elapsed r) in
                (withManager w1 m5,
                 Ok {| view_row := row;
                       view_compressionRatio := ObjectStorage.compressionRatio s |})
            end
        end
  end.

(** [createSnapshot(profileId, snapshotName, sourceFilePath)] *)
Definition createSnapshot (w : world) (r : snapshotRequest)
  : world * result snapshotView :=
  match checkQuota (manager w) "snapshot_count" with
  | Err e => (w, Err e)
  | Ok _ =>
      let found := getProfile byteLength cacheConfig (manager w)
                     (snap_lookupAt r) (snap_cachedAt r) (snap_profile r) in
      let w1 := withManager w (fst found) in
      match snd found with
      | Err e => (w1, Err e)
      | Ok None => (w1, Err ProfileNotFound)
      | Ok (Some _) =>
          let stored := ObjectStorage.store objectConfig (snap_writeFault r)
                          (snap_entropy r) (objectStorage w1) (objectKeyOf r)
                          (snap_source r) (snapshotOptions w1) in
          let w2 := withObjects w1 (fst stored) in
          match snd stored with
          | Err e => (w2, Err e)
          | Ok (ObjectStorage.Deduplicated hit) => afterHit w2 r hit
          | Ok (ObjectStorage.Stored s) => recordSnapshot w2 r s
          end
      end
  end.

End Snapshots.

(** *** The manager's own cipher for short texts

    [encrypt(text)] and [decrypt(text)] of lines 320-340, and the key that
    [loadOrGenerateEncryptionKey] generates when neither the environment nor
    the key file provides one.  A text is identified with its UTF-8 bytes. *)

Section Secrets.

Context {C : ObjectStorage.Codecs}.

(** [crypto.randomBytes(32).toString('hex')] *)
Definition generateKey (rnd : nat -> byte) : string :=
  JS.hexEncode (ObjectStorage.randomBytes rnd 32).

(** [iv.toString('hex') + ':' + encrypted] *)
Definition encryptText (rnd : nat -> byte) (encryptionKey : string) (text : buffer)
  : result string :=
  kb <- ObjectStorage.cipherKey encryptionKey ;;
  let iv := ObjectStorage.randomBytes rnd 16 in
  let encrypted := JS.hexEncode (ObjectStorage.aesEncrypt kb iv text) in
  Ok (JS.hexEncode iv ++ String ":" encrypted)%string.

(** [text.split(':')], the first part as IV, the rest joined again.
    [createDecipheriv] looks at the length of the IV first and at the length
    of the key second. *)
Definition decryptText (encryptionKey : string) (text : string) : result buffer :=
  let parts := JS.split ":" text in
  let iv := JS.hexDecode (hd EmptyString parts) in
  let encrypted := JS.join ":" (tl parts) in
  if Nat.eqb (List.length iv) 16 then
    kb <- ObjectStorage.cipherKey encryptionKey ;;
    match ObjectStorage.aesDecrypt kb iv (JS.hexDecode encrypted) with
    | Some d => Ok d
    | None => Err DecryptError
    end
  else Err InvalidIV.

End Secrets.

End StorageManager.

(** ** A small codec instance

    Used to run the model on concrete inputs.  [gzip] here keeps the payload
    as it is inside gzip's frame, a 10-byte header and an 8-byte trailer (the
    least a gzip stream adds); the cipher and the digest are simple injective
    stand-ins. *)

Module Framed.

Import ObjectStorage.

Definition header : buffer :=
  [x1f; x8b; x08; x00; x00; x00; x00; x00; x00; x03]%byte.

Definition trailer : buffer :=
  [x00; x00; x00; x00; x00; x00; x00; x00]%byte.

Definition frame (d : buffer) : buffer := header ++ d ++ trailer.

Definition unframe (d : buffer) : option buffer :=
  if (List.length d <? 18)%nat then None
  else Some (firstn (List.length d - 18) (skipn 10 d)).

Definition tag (d : buffer) : buffer := x0b%byte :: d.

Definition untag (d : buffer) : option buffer :=
  match d with
  | [] => None
  | _ :: r => Some r
  end.

Definition digest (d : buffer) : string :=
  String "h" (string_of_list_byte d).

#[export] Instance codecs : Codecs := {|
  sha256 := digest;
  gzip := fun _ d => frame d;
  gunzip := unframe;
  brotliCompress := tag;
  brotliDecompress := untag;
  aesEncrypt := fun _ _ d => rev d;
  aesDecrypt := fun _ _ d => Some (rev d)
|}.

(** Sixty-four hexadecimal digits: a 32-byte key. *)
Definition key64 : string :=
  "000102030405060708090a0b0c0d0e0f101112131415161718191a1b1c1d1e1f".

(** An entropy source for [crypto.randomBytes]. *)
Definition entropy (n : nat) : byte :=
  match Byte.of_N (N.of_nat n) with
  | Some b => b
  | None => x00%byte
  end.

Definition cfg : config :=
  {| compressionLevel := 6; enableDeduplication := true |}.

(** A disk holding one source file, and an empty index. *)
Definition disk (src : string) (content : buffer) : state :=
  {| files :=
       writeTo emptyFs (FilePath src) content;
     deduplicationMap := [];
     savedIndex := None |}.

(** Options with gzip and the cipher both on. *)
Definition roundtripOptions : storeOptions :=
  {| opt_tier := "hot"; opt_compress := true; opt_compressionAlgorithm := "gzip";
     opt_encrypt := true; opt_encryptionKey := Some key64;
     opt_enableDedup := true |}.

Definition blob : buffer := [x61; x62; x63]%byte.
Definition src : path := FilePath "/tmp/blob".
Definition disk0 : state := disk "/tmp/blob" blob.
Definition withDedup : storeOptions := defaultStoreOptions cfg.

(** The state after [store("A", ...)] and after a second [store("B", ...)] of
    the same file. *)
Definition afterA : state :=
  fst (store cfg NoFault entropy disk0 "A" src withDedup).
Definition storeB : state * result storeResult :=
  store cfg NoFault entropy afterA "B" src withDedup.
Definition afterB : state := fst storeB.

Definition plain : storeOptions :=
  {| opt_tier := "hot"; opt_compress := false; opt_compressionAlgorithm := "gzip";
     opt_encrypt := false; opt_encryptionKey := None; opt_enableDedup := false |}.

Definition readPlain : retrieveOptions := matching plain.

Definition inHot : storeOptions :=
  {| opt_tier := "hot"; opt_compress := true; opt_compressionAlgorithm := "gzip";
     opt_encrypt := false; opt_encryptionKey := None; opt_enableDedup := true |}.

Definition hotA : state :=
  fst (store cfg NoFault entropy disk0 "A" src inHot).

Definition encryptNoKey : storeOptions :=
  {| opt_tier := "warm"; opt_compress := true; opt_compressionAlgorithm := "gzip";
     opt_encrypt := true; opt_encryptionKey := None; opt_enableDedup := true |}.

(** A disk with two source files of different content, and one with an empty
    source file. *)
Definition twoSources : state :=
  {| files := writeTo (writeTo emptyFs (FilePath "/tmp/v1") [x61]%byte)
                      (FilePath "/tmp/v2") [x62]%byte;
     deduplicationMap := [];
     savedIndex := None |}.

Definition emptySource : state := disk "/tmp/empty" [].

End Framed.

(** ** Sample caches and a sample manager

    A cached value is identified in the cache runs with the length of its JSON
    text. *)

Module Samples.

Import CacheManager StorageManager.

Local Open Scope Z_scope.

Definition sized : Z -> Z := fun n => n.

Definition oneMB : CacheManager.config := CacheManager.newConfig (Some 1) None.

Definition jsonLength (v : cached) : Z :=
  match v with
  | CachedProfile p => 96 + Z.of_nat (String.length (name p))
  | CachedProfiles l => 2 + 96 * Z.of_nat (List.length l)
  end.

Definition cache100 : CacheManager.config := CacheManager.newConfig None None.

Definition limitTwo : StorageManager.state :=
  {| profiles := [];
     storageQuotas :=
       [ {| quota_id := "quota_snapshot_count"; quotaType := "snapshot_count";
            limitValue := 1000; currentValue := Some 0; isExceeded := Some false |};
         {| quota_id := "quota_profile_count"; quotaType := "profile_count";
            limitValue := 2; currentValue := Some 0; isExceeded := Some false |} ];
     cacheManager := CacheManager.initial [];
     metrics := {| operations := 0; totalTime := 0 |} |}.

Definition ask (i : string) (n : string) (t : Z) : request :=
  {| uuid := i; req_name := n; req_description := None; now := t; duration := 3 |}.

Definition firstTwo : list request := [ask "u-1" "work" 1000; ask "u-2" "home" 2000].

Definition third : request := ask "u-3" "travel" 3000.

End Samples.

(** ** Further sample inputs *)

Module MoreSamples.

Import ObjectStorage.

Local Open Scope Z_scope.

(** A tier name outside hot, warm and cold. *)
Definition archive : storeOptions :=
  {| opt_tier := "archive"; opt_compress := true; opt_compressionAlgorithm := "brotli";
     opt_encrypt := false; opt_encryptionKey := None; opt_enableDedup := true |}.

(** Encryption asked for with a key that is too short. *)
Definition shortKey : storeOptions :=
  {| opt_tier := "warm"; opt_compress := true; opt_compressionAlgorithm := "gzip";
     opt_encrypt := true; opt_encryptionKey := Some "secret"%string;
     opt_enableDedup := true |}.

(** Three cache entries, 2.2 MB in all, written under a budget of 4 MB. *)
Definition crowded : CacheManager.state Z :=
  CacheManager.run Samples.sized (CacheManager.newConfig (Some 4) None)
    (CacheManager.initial [])
    [(0, CacheManager.Set_ "late" 900000 (Some 900));
     (1, CacheManager.Set_ "soon" 700000 (Some 100));
     (2, CacheManager.Set_ "mid" 600000 (Some 500))].

(** Two cache entries, one of which has expired at time 7. *)
Definition twoEntries : CacheManager.state Z :=
  CacheManager.run Samples.sized Samples.oneMB (CacheManager.initial [])
    [(0, CacheManager.Set_ "a" 10 (Some 5)); (1, CacheManager.Set_ "b" 20 (Some 50))].

(** A manager whose cache holds the (empty) profile list, written at time
    500 for five minutes. *)
Definition listed : StorageManager.state :=
  {| StorageManager.profiles := [];
     StorageManager.storageQuotas := StorageManager.storageQuotas Samples.limitTwo;
     StorageManager.cacheManager :=
       CacheManager.set Samples.jsonLength Samples.cache100 500 (CacheManager.initial [])
         "profiles:list" (StorageManager.CachedProfiles []) (Some 300000);
     StorageManager.metrics := StorageManager.metrics Samples.limitTwo |}.

(** An index entry whose file is gone. *)
Definition dangling : state :=
  {| files := emptyFs;
     deduplicationMap := [("h1"%string, "hot/A"%string)];
     savedIndex := None |}.

End MoreSamples.

(** ** A manager with one profile and a source file to snapshot *)

Module SnapshotSamples.

Import StorageManager.

Local Open Scope Z_scope.

(** The continuation after a deduplication hit is left open by the model;
    the runs below never reach it. *)
Definition noHit (w : world) (r : snapshotRequest) (h : ObjectStorage.dedupHit)
  : world * result snapshotView := (w, Err DatabaseError).

Definition work : profile :=
  {| id := "u-1"; name := "work"; description := None; storageTier := "hot";
     accessCount := 0 |}.

(** A table with a [total_size] row of ten bytes, which is at its limit;
    [snapshot_count] is not. *)
Definition fullSize : world :=
  {| manager :=
       {| profiles := [work];
          storageQuotas :=
            [ {| quota_id := "quota_snapshot_count"; quotaType := "snapshot_count";
                 limitValue := 1000; currentValue := Some 0; isExceeded := Some false |};
              {| quota_id := "quota_total_size"; quotaType := "total_size";
                 limitValue := 10; currentValue := Some 10; isExceeded := Some true |} ];
          cacheManager := CacheManager.initial [];
          metrics := {| operations := 0; totalTime := 0 |} |};
     objectStorage := Framed.disk0;
     snapshots := [];
     encryptionKey := Some Framed.key64 |}.

Definition monday : snapshotRequest :=
  {| snap_profile := "u-1"; snap_label := "monday"; snap_source := Framed.src;
     snap_uuid := "s-1"; snap_lookupAt := 1000; snap_cachedAt := 1001;
     snap_elapsed := 5; snap_entropy := Framed.entropy;
     snap_writeFault := ObjectStorage.NoFault;
     snap_profileUpdateRejected := false |}.

End SnapshotSamples.

(** * Properties *)

(** ** Strings and maps *)

Module JSFacts.

Import JS.

Lemma split_not_nil (c : ascii) (s : string) : split c s <> [].
Proof.
  destruct s as [|a r]; simpl; [discriminate|].
  destruct (Ascii.eqb a c); [discriminate|].
  destruct (split c r); discriminate.
Qed.

Lemma join_cons (c : ascii) (x : string) (l : list string) :
  l <> [] -> join c (x :: l) = (x ++ String c (join c l))%string.
Proof. destruct l; [congruence | reflexivity]. Qed.

(** Splitting then joining on the same separator gives the string back. *)
Lemma join_split (c : ascii) (s : string) : join c (split c s) = s.
Proof.
  induction s as [|a r IH]; simpl; [reflexivity|].
  destruct (Ascii.eqb_spec a c) as [->|Hne].
  - rewrite join_cons by apply split_not_nil. simpl. now rewrite IH.
  - pose proof (split_not_nil c r) as Hnil.
    destruct (split c r) as [|h t]; [congruence|].
    destruct t as [|h' t'].
    + simpl in *. now rewrite IH.
    + change (join c (String a h :: h' :: t'))
        with (String a (h ++ String c (join c (h' :: t'))))%string.
      f_equal. exact IH.
Qed.

Lemma includes_slashed (a b : string) : includes "/" (slashed a b) = true.
Proof.
  unfold slashed. induction a as [|x r IH]; simpl; [reflexivity|].
  destruct (Ascii.eqb x "/"); [reflexivity | exact IH].
Qed.

Lemma split_slashed (a b : string) :
  includes "/" a = false -> split "/" (slashed a b) = a :: split "/" b.
Proof.
  unfold slashed. induction a as [|x r IH]; simpl; intros H; [reflexivity|].
  destruct (Ascii.eqb x "/"); [discriminate|].
  now rewrite (IH H).
Qed.

Lemma get_set_same (V : Type) (m : map V) (k : string) (v : V) :
  get (set m k v) k = Some v.
Proof.
  induction m as [|[k' v'] r IH]; simpl.
  - now rewrite String.eqb_refl.
  - destruct (String.eqb_spec k' k) as [->|Hne]; simpl.
    + now rewrite String.eqb_refl.
    + destruct (String.eqb_spec k' k); [congruence | exact IH].
Qed.

Lemma get_delete_same (V : Type) (m : map V) (k : string) :
  get (delete m k) k = None.
Proof.
  induction m as [|[k' v'] r IH]; simpl; [reflexivity|].
  destruct (String.eqb_spec k' k) as [->|Hne]; simpl; [exact IH|].
  destruct (String.eqb_spec k' k); [congruence | exact IH].
Qed.

Lemma delete_length (V : Type) (m : map V) (k : string) :
  (List.length (delete m k) <= List.length m)%nat.
Proof. apply filter_length_le. Qed.

Lemma get_some_delete_length (V : Type) (m : map V) (k : string) (v : V) :
  get m k = Some v -> (List.length (delete m k) < List.length m)%nat.
Proof.
  induction m as [|[k' v'] r IH]; simpl; [discriminate|].
  destruct (String.eqb_spec k' k) as [->|Hne]; simpl; intros H.
  - pose proof (delete_length r k). unfold delete in *. lia.
  - apply IH in H. unfold delete in *. lia.
Qed.

End JSFacts.

(** ** ObjectStorage: store and retrieve *)

Module ObjectStorageFacts.

Import ObjectStorage.

Lemma tierDir_eqb_refl (d : tierDir) : tierDir_eqb d d = true.
Proof. now destruct d. Qed.

Lemma path_eqb_refl (p : path) : path_eqb p p = true.
Proof.
  destruct p; simpl; [rewrite tierDir_eqb_refl|]; now rewrite String.eqb_refl.
Qed.

Lemma path_eqb_eq (p q : path) : path_eqb p q = true <-> p = q.
Proof.
  split; [|intros ->; apply path_eqb_refl].
  destruct p as [d r|a], q as [d' r'|b]; simpl; try discriminate.
  - intros H. apply andb_prop in H as [Hd Hr].
    apply String.eqb_eq in Hr. destruct d, d'; simpl in Hd; congruence.
  - intros H. apply String.eqb_eq in H. congruence.
Qed.

Lemma writeTo_same (fs : fileSystem) (p : path) (d : buffer) :
  writeTo fs p d p = Some d.
Proof. unfold writeTo. now rewrite path_eqb_refl. Qed.

Lemma unlink_same (fs : fileSystem) (p : path) : unlink fs p p = None.
Proof. unfold unlink. now rewrite path_eqb_refl. Qed.

Lemma path_eqb_neq (p q : path) : p <> q -> path_eqb p q = false.
Proof.
  intros H. destruct (path_eqb p q) eqn:E; [|reflexivity].
  apply path_eqb_eq in E. contradiction.
Qed.

Lemma writeTo_other (fs : fileSystem) (p q : path) (d : buffer) :
  q <> p -> writeTo fs p d q = fs q.
Proof. intros H. unfold writeTo. now rewrite path_eqb_neq. Qed.

Lemma unlink_other (fs : fileSystem) (p q : path) :
  q <> p -> unlink fs p q = fs q.
Proof. intros H. unfold unlink. now rewrite path_eqb_neq. Qed.

(** Appending a binding for a hash that was absent makes it the first entry
    naming [loc] when no earlier entry named it. *)
Lemma findByPath_set_fresh (m : JS.map string) (h loc : string) :
  JS.get m h = None -> findByPath m loc = None ->
  findByPath (JS.set m h loc) loc = Some h.
Proof.
  induction m as [|[h' q] r IH]; simpl; intros Hg Hf.
  - now rewrite String.eqb_refl.
  - destruct (String.eqb h' h); [discriminate|]. simpl.
    destruct (String.eqb q loc); [discriminate|]. now apply IH.
Qed.

(** The key handed back by [store] leads [retrieve], [delete] and [moveTier]
    to the relative key [store] wrote under, as long as the tier name has no
    slash of its own. *)
Lemma baseKeyOf_slashed (t k : string) :
  JS.includes "/" t = false -> baseKeyOf (JS.slashed t k) = k.
Proof.
  intros H. unfold baseKeyOf.
  rewrite JSFacts.includes_slashed, JSFacts.split_slashed by exact H.
  apply JSFacts.join_split.
Qed.

Lemma length_randomBytes (rnd : nat -> byte) (n : nat) :
  List.length (randomBytes rnd n) = n.
Proof. unfold randomBytes. now rewrite length_map, length_seq. Qed.

Section RoundTrip.

Context {C : Codecs} {L : CodecLaws C}.

Lemma decompress_compress (cfg : config) (o : storeOptions) (d : buffer) :
  decompressStep (matching o) (compressStep cfg o d) = Ok d.
Proof.
  unfold decompressStep, compressStep, decompressData, compressData; simpl.
  destruct (opt_compress o); [|reflexivity].
  destruct (String.eqb (opt_compressionAlgorithm o) "brotli").
  - now rewrite brotli_inverse.
  - now rewrite gunzip_gzip.
Qed.

Lemma cipherKey_length (k : string) (kb : buffer) :
  cipherKey k = Ok kb -> List.length kb = 32%nat.
Proof.
  unfold cipherKey.
  destruct (Nat.eqb_spec (List.length (JS.hexDecode (substring 0 64 k))) 32);
    [intros [= <-]; assumption | discriminate].
Qed.

(** Whatever [encryptStep] produced, [decryptStep] under the matching options
    takes the first 16 bytes as the IV and recovers the input. *)
Lemma decrypt_encrypt (rnd : nat -> byte) (o : storeOptions) (d d2 : buffer) :
  encryptStep rnd o d = Ok d2 -> decryptStep (matching o) d2 = Ok d.
Proof.
  unfold encryptStep, decryptStep; simpl.
  destruct (opt_encryptionKey o) as [k|]; [|now intros [= ->]].
  destruct (opt_encrypt o && JS.truthyStr k); [|now intros [= ->]].
  destruct (cipherKey k) as [kb|e] eqn:Hk; cbn [bind]; [|discriminate].
  intros [= <-].
  pose proof (aes_inverse kb (randomBytes rnd 16) d
                (cipherKey_length _ Hk) (length_randomBytes rnd 16)) as Hinv.
  cbv [randomBytes seq List.map] in Hinv |- *. simpl.
  now rewrite Hinv.
Qed.

Lemma validKey_cipherKey (k : string) :
  validKey k -> cipherKey k = Ok (JS.hexDecode (substring 0 64 k)).
Proof.
  unfold validKey, cipherKey. intros ->. reflexivity.
Qed.

Lemma encryptStep_total (rnd : nat -> byte) (o : storeOptions) (d : buffer) :
  (opt_encrypt o = true -> exists k, opt_encryptionKey o = Some k /\ validKey k) ->
  exists d2, encryptStep rnd o d = Ok d2.
Proof.
  intros Hk. unfold encryptStep.
  destruct (opt_encryptionKey o) as [k|] eqn:Ek; [|eauto].
  destruct (opt_encrypt o) eqn:Ee; simpl; [|eauto].
  destruct (JS.truthyStr k); [|eauto].
  destruct (Hk eq_refl) as (k' & [= <-] & Hv).
  rewrite (validKey_cipherKey Hv); simpl. eauto.
Qed.

(** When nothing is indexed under the payload's hash (or deduplication is
    off), [store] takes the writing path. *)
Lemma store_fresh (cfg : config) (flt : ioFault) (rnd : nat -> byte) (st : state)
  (k : string) (filePath : path) (o : storeOptions) (P : buffer) :
  files st filePath = Some P ->
  opt_enableDedup o = false \/ JS.get (deduplicationMap st) (sha256 P) = None ->
  store cfg flt rnd st k filePath o =
  storeNew cfg flt rnd st k filePath o
    (if opt_enableDedup o then Some (sha256 P) else None).
Proof.
  intros HP Hd. unfold store, computeHash. rewrite HP.
  destruct (opt_enableDedup o); [|reflexivity].
  destruct Hd as [Hd|Hd]; [discriminate|]. now rewrite Hd.
Qed.

(** The writing path without faults: what is returned and what is on disk. *)
Lemma storeNew_written (cfg : config) (rnd : nat -> byte) (st : state)
  (k : string) (filePath : path) (o : storeOptions) (h : option string)
  (P d2 : buffer) :
  files st filePath = Some P ->
  encryptStep rnd o (compressStep cfg o P) = Ok d2 ->
  exists st' r,
    storeNew cfg NoFault rnd st k filePath o h = (st', Ok (Stored r)) /\
    files st' = writeTo (files st) (TierPath (getTierDirectory (opt_tier o)) k) d2 /\
    key r = JS.slashed (opt_tier o) k /\
    encrypted r = opt_encrypt o /\
    originalSize r = Z.of_nat (List.length P) /\
    compressedSize r = Z.of_nat (List.length (compressStep cfg o P)) /\
    compressionRatio r = ratio (originalSize r) (compressedSize r).
Proof.
  intros HP He. unfold storeNew. rewrite HP.
  fold (compressStep cfg o P). rewrite He. cbn [writeFile].
  assert (Hsz : (if opt_compress o
                 then Z.of_nat (List.length (compressStep cfg o P))
                 else Z.of_nat (List.length P))
                = Z.of_nat (List.length (compressStep cfg o P))).
  { unfold compressStep. now destruct (opt_compress o). }
  rewrite Hsz.
  destruct (opt_enableDedup o && JS.truthy h);
    eexists; eexists; (split; [reflexivity|]); simpl; repeat split; reflexivity.
Qed.

(** Whenever [store] returns the object of the writing path, its fields are
    those computed from the source file [P]. *)
Lemma store_Stored_inv (cfg : config) (flt : ioFault) (rnd : nat -> byte) (st st' : state)
  (k : string) (filePath : path) (o : storeOptions) (r : stored) :
  store cfg flt rnd st k filePath o = (st', Ok (Stored r)) ->
  exists P d2,
    files st filePath = Some P /\
    encryptStep rnd o (compressStep cfg o P) = Ok d2 /\
    files st' = writeTo (files st) (TierPath (getTierDirectory (opt_tier o)) k) d2 /\
    key r = JS.slashed (opt_tier o) k /\
    encrypted r = opt_encrypt o /\
    originalSize r = Z.of_nat (List.length P) /\
    compressedSize r = Z.of_nat (List.length (compressStep cfg o P)) /\
    compressionRatio r = ratio (originalSize r) (compressedSize r).
Proof.
  intros Hs.
  assert (Hnew : exists h, storeNew cfg flt rnd st k filePath o h = (st', Ok (Stored r))).
  { unfold store in Hs. destruct (opt_enableDedup o); [|eauto].
    destruct (computeHash (files st) filePath) as [h|]; [|discriminate].
    destruct (JS.get (deduplicationMap st) h); [|eauto].
    destruct (files st filePath); discriminate. }
  clear Hs. destruct Hnew as [h Hs]. unfold storeNew in Hs.
  destruct (files st filePath) as [P|] eqn:HP; [|discriminate].
  fold (compressStep cfg o P) in Hs.
  destruct (encryptStep rnd o (compressStep cfg o P)) as [d2|] eqn:He; [|discriminate].
  assert (Hsz : (if opt_compress o
                 then Z.of_nat (List.length (compressStep cfg o P))
                 else Z.of_nat (List.length P))
                = Z.of_nat (List.length (compressStep cfg o P))).
  { unfold compressStep. now destruct (opt_compress o). }
  rewrite Hsz in Hs. exists P, d2.
  destruct flt as [|[n|]|]; cbn [writeFile] in Hs; try discriminate;
    destruct (opt_enableDedup o && JS.truthy h); try discriminate;
    injection Hs as <- <-; simpl; repeat split; first [reflexivity | assumption].
Qed.

(** A fresh [store] without faults succeeds, and the key it returns reads
    back the bytes that left the cipher step. *)
Lemma store_fresh_readable (cfg : config) (rnd : nat -> byte) (st : state)
  (k : string) (filePath : path) (o : storeOptions) (P : buffer) :
  files st filePath = Some P ->
  JS.includes "/" (opt_tier o) = false ->
  (opt_encrypt o = true -> exists ek, opt_encryptionKey o = Some ek /\ validKey ek) ->
  opt_enableDedup o = false \/ JS.get (deduplicationMap st) (sha256 P) = None ->
  exists st' r onDisk,
    store cfg NoFault rnd st k filePath o = (st', Ok (Stored r)) /\
    encryptStep rnd o (compressStep cfg o P) = Ok onDisk /\
    readLocal st' (key r) (opt_tier o) = Ok onDisk.
Proof.
  intros HP Ht Hk Hd.
  destruct (encryptStep_total rnd o (compressStep cfg o P) Hk) as [d2 He].
  destruct (storeNew_written cfg rnd st k filePath o
              (if opt_enableDedup o then Some (sha256 P) else None) HP He)
    as (st' & r & Hs & Hf & Hkey & _).
  exists st', r, d2. split; [|split; [exact He|]].
  - erewrite store_fresh; [exact Hs | exact HP | exact Hd].
  - unfold readLocal. rewrite Hkey, baseKeyOf_slashed by exact Ht.
    now rewrite Hf, writeTo_same.
Qed.

(** [retrieve] on bytes that [store] produced: decrypt, then decompress. *)
Lemma retrieve_stages (cfg : config) (rnd : nat -> byte) (st : state) (k t : string)
  (o : storeOptions) (P onDisk : buffer) :
  encryptStep rnd o (compressStep cfg o P) = Ok onDisk ->
  readLocal st k t = Ok onDisk ->
  retrieve st k t (matching o) = Ok P.
Proof.
  intros He Hread. unfold retrieve. rewrite Hread; cbn [bind].
  rewrite (decrypt_encrypt rnd o _ He); cbn [bind].
  apply decompress_compress.
Qed.


(** *** The compression ratio *)

Lemma ratio_zero_size (c : Z) : ratio 0 c = 0%Q.
Proof. reflexivity. Qed.

Lemma ratio_positive_size (n c : Z) :
  (0 < n)%Z -> ratio n c = (1 - inject_Z c / inject_Z n)%Q.
Proof.
  intros H. unfold ratio. destruct (Z.gtb_spec n 0); [reflexivity | lia].
Qed.

Lemma ratio_le_1 (n c : Z) : (0 <= c)%Z -> (ratio n c <= 1)%Q.
Proof.
  intros Hc. unfold ratio. destruct (Z.gtb_spec n 0) as [Hn|Hn].
  - destruct n as [|p|p]; try lia.
    unfold Qle, Qminus, Qplus, Qopp, Qdiv, Qmult, Qinv, inject_Z; cbn [Qnum Qden].
    rewrite ?Pos.mul_1_l, ?Pos.mul_1_r. lia.
  - unfold Qle; simpl; lia.
Qed.

Lemma ratio_nonneg_iff (n c : Z) :
  (0 < n)%Z -> (0 <= ratio n c)%Q <-> (c <= n)%Z.
Proof.
  intros Hn. rewrite (ratio_positive_size c Hn).
  destruct n as [|p|p]; try lia.
  unfold Qle, Qminus, Qplus, Qopp, Qdiv, Qmult, Qinv, inject_Z; cbn [Qnum Qden].
  rewrite ?Pos.mul_1_l, ?Pos.mul_1_r. lia.
Qed.


(** *** Encryption asked for without a key *)

Lemma encryptStep_falsy_key (rnd : nat -> byte) (o : storeOptions) (d : buffer) :
  JS.truthy (opt_encryptionKey o) = false -> encryptStep rnd o d = Ok d.
Proof.
  unfold encryptStep, JS.truthy. destruct (opt_encryptionKey o) as [k|]; [|reflexivity].
  intros ->. now rewrite andb_false_r.
Qed.


(** *** Deduplication hits *)

(** A hit returns at once: the state is the one given, whatever the codecs,
    the options and the key are. *)
Lemma store_hit (cfg : config) (flt : ioFault) (rnd : nat -> byte) (st : state)
  (k : string) (filePath : path) (o : storeOptions) (P : buffer) (loc : string) :
  files st filePath = Some P ->
  opt_enableDedup o = true ->
  JS.get (deduplicationMap st) (sha256 P) = Some loc ->
  store cfg flt rnd st k filePath o =
  (st, Ok (Deduplicated
     {| hit_key := loc; hit_path := loc; hit_dedupHash := sha256 P;
        hit_originalSize := Z.of_nat (List.length P);
        hit_storedSize := 0; hit_tier := opt_tier o |})).
Proof.
  intros HP Hd Hg. unfold store, computeHash. now rewrite Hd, HP, Hg.
Qed.

(** After a write with deduplication on, the index maps the hash to the
    storage key. *)
Lemma store_indexes (cfg : config) (rnd : nat -> byte) (st st' : state)
  (k : string) (filePath : path) (o : storeOptions) (P : buffer) (r : stored) :
  files st filePath = Some P ->
  opt_enableDedup o = true ->
  JS.get (deduplicationMap st) (sha256 P) = None ->
  store cfg NoFault rnd st k filePath o = (st', Ok (Stored r)) ->
  deduplicationMap st' = JS.set (deduplicationMap st) (sha256 P) (JS.slashed (opt_tier o) k) /\
  savedIndex st' = Some (deduplicationMap st').
Proof.
  intros HP Hd Hg Hs.
  erewrite store_fresh in Hs; [|exact HP|now right].
  rewrite Hd in Hs. unfold storeNew in Hs. rewrite HP in Hs.
  destruct (encryptStep rnd o _); [|discriminate].
  cbn [writeFile] in Hs. rewrite Hd in Hs. cbn [JS.truthy andb] in Hs.
  rewrite sha256_truthy in Hs. injection Hs as <- _. split; reflexivity.
Qed.


(** *** Deleting *)

Lemma delete_spec (st : state) (k t : string) :
  snd (delete st k t) = true /\
  files (fst (delete st k t)) (TierPath (getTierDirectory t) (baseKeyOf k)) = None /\
  (forall q, q <> TierPath (getTierDirectory t) (baseKeyOf k) ->
             files (fst (delete st k t)) q = files st q) /\
  deduplicationMap (fst (delete st k t)) =
    match findByPath (deduplicationMap st) k with
    | Some h => JS.delete (deduplicationMap st) h
    | None => deduplicationMap st
    end.
Proof.
  unfold delete. destruct (findByPath (deduplicationMap st) k); simpl;
    (repeat split; [apply unlink_same | intros q Hq; now apply unlink_other]).
Qed.


(** *** Failures during [store] *)

(** C5, as amended.  [store] writes the transformed bytes with one
    [fs.writeFile] at the final tier path (there is no temporary file and no
    rename) and updates the index afterwards.  If the object file cannot be
    opened, nothing changes.  If the write stops after [n] bytes, the final
    path holds that prefix and a later read of the key sees it; the index is
    untouched.  If saving the index fails, the object is complete and
    [retrieve] returns the payload; the in-memory index has the entry. *)
Theorem store_writes_in_place (cfg : config) (rnd : nat -> byte) (st : state)
  (k : string) (f : path) (o : storeOptions) (P : buffer) :
  files st f = Some P ->
  JS.includes "/" (opt_tier o) = false ->
  (opt_encrypt o = true -> exists ek, opt_encryptionKey o = Some ek /\ validKey ek) ->
  opt_enableDedup o = false \/ JS.get (deduplicationMap st) (sha256 P) = None ->
  exists onDisk,
    encryptStep rnd o (compressStep cfg o P) = Ok onDisk /\
    store cfg (WriteFault None) rnd st k f o = (st, Err IOError) /\
    (forall n, exists st',
       store cfg (WriteFault (Some n)) rnd st k f o = (st', Err IOError) /\
       readLocal st' (JS.slashed (opt_tier o) k) (opt_tier o) = Ok (firstn n onDisk) /\
       deduplicationMap st' = deduplicationMap st /\
       savedIndex st' = savedIndex st) /\
    (opt_enableDedup o = true -> exists st',
       store cfg IndexSaveFault rnd st k f o = (st', Err IOError) /\
       retrieve st' (JS.slashed (opt_tier o) k) (opt_tier o) (matching o) = Ok P /\
       JS.get (deduplicationMap st') (sha256 P) = Some (JS.slashed (opt_tier o) k)).
Proof.
  intros HP Ht Hk Hd.
  destruct (encryptStep_total rnd o (compressStep cfg o P) Hk) as [d2 He].
  exists d2. split; [exact He|].
  assert (Hnew : forall flt, store cfg flt rnd st k f o =
            storeNew cfg flt rnd st k f o
              (if opt_enableDedup o then Some (sha256 P) else None)).
  { intros flt. eapply store_fresh; eassumption. }
  split; [|split].
  - rewrite Hnew. unfold storeNew. rewrite HP. fold (compressStep cfg o P).
    rewrite He. cbn [writeFile]. now destruct st.
  - intros n. eexists. rewrite Hnew. unfold storeNew. rewrite HP.
    fold (compressStep cfg o P). rewrite He. cbn [writeFile].
    split; [reflexivity|]. cbn [files deduplicationMap savedIndex].
    unfold readLocal; cbn [files].
    rewrite baseKeyOf_slashed by exact Ht. now rewrite writeTo_same.
  - intros Hon. eexists. rewrite Hnew, Hon. unfold storeNew. rewrite HP.
    fold (compressStep cfg o P). rewrite He. cbn [writeFile].
    rewrite Hon. cbn [JS.truthy andb]. rewrite sha256_truthy.
    split; [reflexivity|]. cbn [files deduplicationMap savedIndex].
    split; [|apply JSFacts.get_set_same].
    unfold retrieve, readLocal; cbn [files].
    rewrite baseKeyOf_slashed by exact Ht. rewrite writeTo_same; cbn [bind].
    rewrite (decrypt_encrypt rnd o _ He); cbn [bind].
    apply decompress_compress.
Qed.

End RoundTrip.

(** *** Moving between tiers *)

Lemma readLocal_Ok (st : state) (k t : string) (d : buffer) :
  readLocal st k t = Ok d <->
  files st (TierPath (getTierDirectory t) (baseKeyOf k)) = Some d.
Proof.
  unfold readLocal. destruct (files st _); split; congruence.
Qed.

Lemma readLocal_missing (st : state) (k t : string) :
  files st (TierPath (getTierDirectory t) (baseKeyOf k)) = None ->
  readLocal st k t = Err FileNotFound.
Proof. unfold readLocal. now intros ->. Qed.

Lemma moveTierIndex_files (st : state) (k a b : string) :
  files (moveTierIndex st k a b) = files st.
Proof.
  unfold moveTierIndex. now destruct (findByPath (deduplicationMap st) _).
Qed.



(** The stand-in codecs satisfy the laws. *)
Lemma framed_unframe (d : buffer) : Framed.unframe (Framed.frame d) = Some d.
Proof.
  unfold Framed.unframe, Framed.frame.
  rewrite !length_app. simpl List.length.
  destruct (Nat.ltb_spec (10 + (List.length d + 8)) 18) as [Hlt|_]; [lia|].
  f_equal. simpl skipn.
  replace (10 + (List.length d + 8) - 18)%nat with (List.length d + 0)%nat by lia.
  now rewrite firstn_app_2, firstn_O, app_nil_r.
Qed.

#[export] Instance framed_laws : CodecLaws Framed.codecs.
Proof.
  constructor; simpl.
  - reflexivity.
  - intros _ d. apply framed_unframe.
  - reflexivity.
  - intros _ _ d _ _. now rewrite rev_involutive.
Qed.

Lemma validKey_key64 : validKey Framed.key64.
Proof. reflexivity. Qed.

Section Runs.

Local Existing Instance Framed.codecs.



(** The zero-length input: gzip still writes its 18 bytes of frame, and the
    ratio is reported as 0. *)
Lemma compressionRatio_empty_file :
  exists st' r,
    store Framed.cfg NoFault Framed.entropy Framed.emptySource "empty"
          (FilePath "/tmp/empty") (defaultStoreOptions Framed.cfg) = (st', Ok (Stored r)) /\
    originalSize r = 0%Z /\ compressedSize r = 18%Z /\ compressionRatio r = 0%Q.
Proof. eexists. eexists. repeat split. Qed.


(** *** The two-key scenario on a concrete disk *)



(** The index is not kept in step with later writes.  [A] is stored with the
    content of one file and then again with the content of another: the index
    now has two entries for the one location, which holds the second content.
    A [store] of the first content is still a hit on that location. *)
Lemma dedup_hit_on_overwritten_location :
  let st1 := fst (store Framed.cfg NoFault Framed.entropy Framed.twoSources "A"
                    (FilePath "/tmp/v1") Framed.withDedup) in
  let st2 := fst (store Framed.cfg NoFault Framed.entropy st1 "A"
                    (FilePath "/tmp/v2") Framed.withDedup) in
  deduplicationMap st2
    = [(Framed.digest [x61]%byte, "warm/A"%string); (Framed.digest [x62]%byte, "warm/A"%string)] /\
  snd (store Framed.cfg NoFault Framed.entropy st2 "B" (FilePath "/tmp/v1") Framed.withDedup)
    = Ok (Deduplicated
        {| hit_key := "warm/A"; hit_path := "warm/A"; hit_dedupHash := Framed.digest [x61]%byte;
           hit_originalSize := 1; hit_storedSize := 0; hit_tier := "warm" |}) /\
  retrieve st2 "warm/A" "warm" defaultRetrieveOptions = Ok [x62]%byte.
Proof. repeat split. Qed.



(** *** A write that stops half way *)

(** Against C5: the write of a three-byte object rejects after one byte;
    [store] fails, and a later [retrieve] of the key succeeds with that byte. *)
Lemma partial_write_is_visible :
  let res := store Framed.cfg (WriteFault (Some 1%nat)) Framed.entropy Framed.disk0 "A" Framed.src Framed.plain in
  snd res = Err IOError /\
  retrieve Framed.disk0 "hot/A" "hot" Framed.readPlain = Err FileNotFound /\
  retrieve (fst res) "hot/A" "hot" Framed.readPlain = Ok [x61]%byte.
Proof. repeat split. Qed.

Lemma store_writes_in_place_witness :
  exists onDisk,
    encryptStep Framed.entropy Framed.roundtripOptions
      (compressStep Framed.cfg Framed.roundtripOptions Framed.blob) = Ok onDisk /\
    store Framed.cfg (WriteFault None) Framed.entropy Framed.disk0 "A" Framed.src Framed.roundtripOptions
      = (Framed.disk0, Err IOError) /\
    (forall n, exists st',
       store Framed.cfg (WriteFault (Some n)) Framed.entropy Framed.disk0 "A" Framed.src Framed.roundtripOptions
         = (st', Err IOError) /\
       readLocal st' (JS.slashed (opt_tier Framed.roundtripOptions) "A") (opt_tier Framed.roundtripOptions)
         = Ok (firstn n onDisk) /\
       deduplicationMap st' = deduplicationMap Framed.disk0 /\
       savedIndex st' = savedIndex Framed.disk0) /\
    (opt_enableDedup Framed.roundtripOptions = true -> exists st',
       store Framed.cfg IndexSaveFault Framed.entropy Framed.disk0 "A" Framed.src Framed.roundtripOptions
         = (st', Err IOError) /\
       retrieve st' (JS.slashed (opt_tier Framed.roundtripOptions) "A")
                (opt_tier Framed.roundtripOptions) (matching Framed.roundtripOptions) = Ok Framed.blob /\
       JS.get (deduplicationMap st') (sha256 Framed.blob)
         = Some (JS.slashed (opt_tier Framed.roundtripOptions) "A")).
Proof.
  apply (@store_writes_in_place Framed.codecs framed_laws Framed.cfg Framed.entropy
           Framed.disk0 "A" Framed.src Framed.roundtripOptions Framed.blob).
  - reflexivity.
  - reflexivity.
  - intros _. exists Framed.key64. split; [reflexivity | exact validKey_key64].
  - right. reflexivity.
Defined.

(** *** A read during a tier move *)



(** *** [encrypt] without a key *)



End Runs.

End ObjectStorageFacts.

(** ** CacheManager: eviction and byte accounting *)

Module CacheManagerFacts.

Import CacheManager.

Local Open Scope Z_scope.

Section Eviction.

Variable V : Type.

Local Abbreviation entries := (JS.map (memEntry V)).

Lemma scanOldest_from (m : entries) (k0 : string) (t0 : Z) :
  exists k, scanOldest m (Some k0) (Some t0) = Some k /\
    ((k = k0 /\ forall k' e', In (k', e') m -> t0 <= expiresAt e') \/
     (exists e, soonest m k e /\ expiresAt e < t0)).
Proof.
  revert k0 t0. induction m as [|[k1 e1] r IH]; intros k0 t0; simpl.
  - exists k0. split; [reflexivity|]. left. split; [reflexivity|]. intros ? ? [].
  - destruct (Z.ltb_spec (expiresAt e1) t0) as [Hlt|Hge].
    + destruct (IH k1 (expiresAt e1)) as (k & Hk & Hcases).
      exists k. split; [exact Hk|]. right.
      destruct Hcases as [[Heq Hall]|(e & [Hin Hmin] & Hlt')].
      * subst k. exists e1. split; [split; [now left|]|exact Hlt].
        intros k' e' [[= <- <-]|Hin]; [lia | now apply Hall with k'].
      * exists e. split; [split; [now right|]|lia].
        intros k' e' [[= <- <-]|Hin']; [lia | now apply Hmin with k'].
    + destruct (IH k0 t0) as (k & Hk & Hcases).
      exists k. split; [exact Hk|].
      destruct Hcases as [[Heq Hall]|(e & [Hin Hmin] & Hlt')].
      * left. split; [exact Heq|].
        intros k' e' [[= <- <-]|Hin]; [lia | now apply Hall with k'].
      * right. exists e. split; [split; [now right|]|exact Hlt'].
        intros k' e' [[= <- <-]|Hin']; [lia | now apply Hmin with k'].
Qed.

(** The scan of a non-empty map selects an entry with the smallest
    [expiresAt]. *)
Lemma scanOldest_soonest (m : entries) :
  m <> [] -> exists k e, scanOldest m None None = Some k /\ soonest m k e.
Proof.
  destruct m as [|[k1 e1] r]; [congruence|]. intros _. simpl.
  destruct (scanOldest_from r k1 (expiresAt e1)) as (k & Hk & Hcases).
  destruct Hcases as [[Heq Hall]|(e & [Hin Hmin] & Hlt)].
  - subst k. exists k1, e1. split; [exact Hk|]. split; [now left|].
    intros k' e' [[= <- <-]|Hin]; [lia | now apply Hall with k'].
  - exists k, e. split; [exact Hk|]. split; [now right|].
    intros k' e' [[= <- <-]|Hin']; [lia | now apply Hmin with k'].
Qed.

Lemma get_of_In (m : entries) (k : string) (e : memEntry V) :
  distinctKeys m -> In (k, e) m -> JS.get m k = Some e.
Proof.
  unfold distinctKeys. induction m as [|[k1 e1] r IH]; simpl; [intros _ []|].
  intros Hnd [[= -> ->]|Hin].
  - now rewrite String.eqb_refl.
  - inversion Hnd as [|? ? Hnot Hnd']; subst.
    destruct (String.eqb_spec k1 k) as [->|_].
    + exfalso. apply Hnot. change k with (fst (k, e)). now apply in_map.
    + now apply IH.
Qed.

Lemma delete_distinct (m : entries) (k : string) :
  distinctKeys m -> distinctKeys (JS.delete m k).
Proof.
  unfold distinctKeys, JS.delete. induction m as [|[k1 e1] r IH]; simpl; [auto|].
  intros Hnd. inversion Hnd as [|? ? Hnot Hnd']; subst.
  destruct (String.eqb k1 k); simpl; [now apply IH|].
  constructor; [|now apply IH].
  intros Hin. apply Hnot. apply in_map_iff in Hin as ([k' e'] & Hk & Hf).
  apply filter_In in Hf as [Hf _]. apply in_map_iff. now exists (k', e').
Qed.

Lemma delete_truthy (m : entries) (k : string) :
  truthyKeys m -> truthyKeys (JS.delete m k).
Proof.
  intros H k' e' Hin. apply filter_In in Hin as [Hin _]. now apply H with e'.
Qed.

Lemma evictLoop_spec (cfg : config) (fuel : nat) (st : state V) :
  (List.length (memoryCache st) <= fuel)%nat ->
  distinctKeys (memoryCache st) ->
  truthyKeys (memoryCache st) ->
  clos_refl_trans _ (evicts cfg) st (evictLoop fuel cfg st) /\
  (totalMemoryBytes (stat (evictLoop fuel cfg st)) <= maxBytes cfg \/
   memoryCache (evictLoop fuel cfg st) = []) /\
  db (evictLoop fuel cfg st) = db st.
Proof.
  revert st. induction fuel as [|n IH]; intros st Hlen Hnd Htr.
  - simpl. split; [apply rt_refl|]. split; [|reflexivity].
    right. destruct (memoryCache st); [reflexivity | simpl in Hlen; lia].
  - simpl. unfold JS.size.
    destruct (Z.gtb_spec (totalMemoryBytes (stat st)) (maxBytes cfg)) as [Hover|Hfit];
      [|simpl; split; [apply rt_refl|]; split; [left; lia | reflexivity]].
    destruct (Nat.ltb_spec 0 (List.length (memoryCache st))) as [Hpos|Hzero];
      [|simpl; split; [apply rt_refl|]; split; [|reflexivity];
        right; destruct (memoryCache st); [reflexivity | simpl in Hzero; lia]].
    simpl.
    assert (Hne : memoryCache st <> [])
      by (intros E; rewrite E in Hpos; simpl in Hpos; lia).
    destruct (scanOldest_soonest Hne) as (k & e & Hscan & Hsoon).
    pose proof (@get_of_In (memoryCache st) k e Hnd (proj1 Hsoon)) as Hget.
    rewrite Hscan, (Htr k e (proj1 Hsoon)), Hget.
    destruct (IH (evictOne st k e)) as (Hsteps & Hexit & Hdb).
    + simpl. pose proof (@JSFacts.get_some_delete_length _ _ _ _ Hget). lia.
    + now apply delete_distinct.
    + now apply delete_truthy.
    + split; [|split; [exact Hexit | exact Hdb]].
      eapply rt_trans; [apply rt_step; constructor; [lia | exact Hsoon] | exact Hsteps].
Qed.


(** The durable layer is never touched, whatever the keys are. *)
Lemma evictLoop_db (cfg : config) (fuel : nat) (st : state V) :
  db (evictLoop fuel cfg st) = db st.
Proof.
  revert st. induction fuel as [|n IH]; intros st; simpl; [reflexivity|].
  destruct (_ && _); [|reflexivity].
  destruct (scanOldest _ _ _) as [k|]; [|reflexivity].
  destruct (JS.truthyStr k); [|reflexivity].
  destruct (JS.get _ k); [|reflexivity].
  now rewrite IH.
Qed.

(** *** Where the tracked total follows the map *)

Lemma delete_absent (m : entries) (k : string) :
  ~ In k (List.map fst m) -> JS.delete m k = m.
Proof.
  unfold JS.delete. induction m as [|[k1 e1] r IH]; simpl; [reflexivity|].
  intros Hnot. destruct (String.eqb_spec k1 k) as [->|_]; simpl.
  - exfalso. apply Hnot. now left.
  - f_equal. apply IH. intros Hin. apply Hnot. now right.
Qed.

Lemma memoryBytes_delete (m : entries) (k : string) (e : memEntry V) :
  distinctKeys m -> JS.get m k = Some e ->
  memoryBytes (JS.delete m k) = memoryBytes m - sizeBytes e.
Proof.
  unfold distinctKeys. induction m as [|[k1 e1] r IH]; simpl; [discriminate|].
  intros Hnd Hget. inversion Hnd as [|? ? Hnot Hnd']; subst.
  destruct (String.eqb_spec k1 k) as [->|Hne]; simpl.
  - injection Hget as ->. fold (JS.delete r k). rewrite delete_absent by exact Hnot. lia.
  - fold (JS.delete r k). rewrite IH by assumption. lia.
Qed.

Lemma evictLoop_accounted (cfg : config) (fuel : nat) (st : state V) :
  distinctKeys (memoryCache st) -> accounted st -> accounted (evictLoop fuel cfg st).
Proof.
  revert st. induction fuel as [|n IH]; intros st Hnd Hacc; simpl; [exact Hacc|].
  destruct (_ && _); [|exact Hacc].
  destruct (scanOldest _ _ _) as [k|]; [|exact Hacc].
  destruct (JS.truthyStr k); [|exact Hacc].
  destruct (JS.get (memoryCache st) k) as [e|] eqn:Hget; [|exact Hacc].
  apply IH.
  - now apply delete_distinct.
  - unfold accounted in *. simpl. rewrite (@memoryBytes_delete _ k e Hnd Hget). lia.
Qed.

(** [evictIfNeeded] subtracts what it removes. *)
Lemma evictIfNeeded_accounted (cfg : config) (st : state V) :
  distinctKeys (memoryCache st) -> accounted st -> accounted (evictIfNeeded cfg st).
Proof. apply evictLoop_accounted. Qed.

(** [clear] resets the total with the map. *)
Lemma clear_accounted (st : state V) : accounted (clear st).
Proof. reflexivity. Qed.

Lemma get_delete_other (m : entries) (k k' : string) :
  k' <> k -> JS.get (JS.delete m k) k' = JS.get m k'.
Proof.
  intros Hne. unfold JS.delete. induction m as [|[k1 e1] r IH]; simpl; [reflexivity|].
  destruct (String.eqb_spec k1 k) as [->|H1]; simpl.
  - destruct (String.eqb_spec k k'); [congruence | exact IH].
  - destruct (String.eqb_spec k1 k'); [reflexivity | exact IH].
Qed.

Lemma cleanup_fold_accounted (now : Z) (todo : entries) (m : entries) (total : Z) :
  distinctKeys m ->
  NoDup (List.map fst todo) ->
  (forall k e, In (k, e) todo -> JS.get m k = Some e) ->
  total = memoryBytes m ->
  snd (fold_left (cleanupEntry now) todo (m, total))
  = memoryBytes (fst (fold_left (cleanupEntry now) todo (m, total))).
Proof.
  revert m total. induction todo as [|[k e] r IH]; intros m total Hm Hnd Hbound Htot;
    simpl; [exact Htot|].
  inversion Hnd as [|? ? Hnot Hnd']; subst.
  assert (Hstep : cleanupEntry now (m, memoryBytes m) (k, e)
                  = if expiresAt e <? now
                    then (JS.delete m k, memoryBytes m - sizeBytes e)
                    else (m, memoryBytes m)) by reflexivity.
  rewrite Hstep. destruct (expiresAt e <? now).
  - apply IH.
    + now apply delete_distinct.
    + exact Hnd'.
    + intros k' e' Hin. rewrite get_delete_other.
      * apply Hbound. now right.
      * intros ->. apply Hnot. change k with (fst (k, e')). now apply in_map.
    + rewrite (@memoryBytes_delete m k e Hm); [reflexivity|]. apply Hbound. now left.
  - apply IH; try assumption; try reflexivity.
    intros k' e' Hin. apply Hbound. now right.
Qed.

(** [cleanupExpired] subtracts what it removes. *)
Lemma cleanupExpired_accounted (now : Z) (st : state V) :
  distinctKeys (memoryCache st) -> accounted st -> accounted (cleanupExpired now st).
Proof.
  intros Hnd Hacc. unfold accounted, cleanupExpired.
  pose proof (@cleanup_fold_accounted now (memoryCache st) (memoryCache st)
                (totalMemoryBytes (stat st)) Hnd Hnd
                (fun k e Hin => @get_of_In _ k e Hnd Hin) Hacc) as H.
  destruct (fold_left _ _ _) as [m total]. exact H.
Qed.

End Eviction.

(** *** Runs on concrete caches *)

(** The loop at an empty key, which no caller in the repository uses.  One
    entry under the key [""] of two million bytes, budget 1 MB: the scan
    selects that entry, [if (oldestKey)] is false for the empty string, and the
    loop is left with the entry in place and the total over the budget. *)
Lemma evictIfNeeded_stops_at_empty_key :
  let st := {| memoryCache := [(""%string, {| value := 2000000; expiresAt := 3600000;
                                             sizeBytes := 2000000 |})];
               stat := {| hits := 0; misses := 0; evictions := 0;
                          totalMemoryBytes := 2000000 |};
               db := [] |} in
  scanOldest (memoryCache st) None None = Some ""%string /\
  evictIfNeeded Samples.oneMB st = st /\
  totalMemoryBytes (stat (evictIfNeeded Samples.oneMB st)) > maxBytes Samples.oneMB /\
  memoryCache (evictIfNeeded Samples.oneMB st) <> [] /\
  memoryCache (set Samples.sized Samples.oneMB 0 (initial []) "" 2000000 None) = memoryCache st /\
  totalMemoryBytes (stat (set Samples.sized Samples.oneMB 0 (initial []) "" 2000000 None)) = 2000000.
Proof. repeat split; discriminate. Qed.

(** C10 at [set] then [delete].  The map is empty again, the tracked total
    still counts the ten bytes of the deleted entry. *)
Lemma delete_leaves_tracked_bytes :
  let st := run Samples.sized Samples.oneMB (initial []) [(0, Set_ "k" 10 None); (1, Delete _ "k")] in
  memoryCache st = [] /\
  memoryBytes (memoryCache st) = 0 /\
  totalMemoryBytes (stat st) = 10 /\
  ~ accounted st.
Proof. repeat split. discriminate. Qed.

(** The same gap on the other paths that change the map without the total:
    a second [set] of a key counts its bytes twice; the expired-entry branch
    of [get] drops the entry and keeps its bytes; a promotion from the table
    adds an entry and no bytes. *)
Lemma set_on_present_key_counts_twice :
  let st := run Samples.sized Samples.oneMB (initial [])
              [(0, Set_ "k" 10 None); (1, Set_ "k" 10 None)] in
  memoryBytes (memoryCache st) = 10 /\ totalMemoryBytes (stat st) = 20.
Proof. split; reflexivity. Qed.

Lemma expired_get_keeps_bytes :
  let st := run Samples.sized Samples.oneMB (initial [])
              [(0, Set_ "k" 10 (Some 5)); (7, Get _ "k")] in
  memoryCache st = [] /\ totalMemoryBytes (stat st) = 10.
Proof. split; reflexivity. Qed.

Lemma promotion_adds_no_bytes :
  let table := [("k"%string, {| row_value := 10; row_expiresAt := Some 50;
                                row_hitCount := 0; row_lastAccessedAt := 0;
                                row_sizeBytes := Some 10 |})] in
  let st := run Samples.sized Samples.oneMB (initial table) [(7, Get _ "k")] in
  memoryBytes (memoryCache st) = 10 /\ totalMemoryBytes (stat st) = 0.
Proof. split; reflexivity. Qed.

End CacheManagerFacts.

(** ** StorageManager: quota enforcement *)

Module StorageManagerFacts.

Import StorageManager.

Local Open Scope Z_scope.

Lemma int4_spec (z : Z) : int4 z = true <-> -2147483648 <= z <= 2147483647.
Proof. unfold int4. rewrite andb_true_iff, !Z.leb_le. tauto. Qed.

Lemma bumpQuota_type (t : string) (delta : Z) (q : quota) :
  quotaType (bumpQuota t delta q) = quotaType q.
Proof. unfold bumpQuota. now destruct (String.eqb (quotaType q) t). Qed.

Lemma selectQuotas_bump (table : list quota) (t : string) (delta : Z) :
  selectQuotas (List.map (bumpQuota t delta) table) t
  = List.map (bumpQuota t delta) (selectQuotas table t).
Proof.
  unfold selectQuotas. induction table as [|q r IH]; simpl; [reflexivity|].
  rewrite bumpQuota_type. destruct (String.eqb (quotaType q) t); simpl; now rewrite IH.
Qed.

(** Counters with room for [n] more accept an increment of one, and then have
    room for [n - 1]. *)
Lemma hasRoom_accepts (table : list quota) (t : string) (n : Z) :
  1 <= n -> hasRoom table t n -> updateAccepted table t 1 = true.
Proof.
  intros Hn Hroom. unfold updateAccepted. cbn [int4 andb Z.leb]. simpl.
  apply forallb_forall. intros q Hin.
  destruct (String.eqb (quotaType q) t) eqn:Et; [|reflexivity]. cbn [negb orb].
  destruct (currentValue q) as [c|] eqn:Ec; [|reflexivity].
  apply int4_spec.
  assert (Hsel : In q (selectQuotas table t)) by (apply filter_In; now split).
  destruct (Hroom q c Hsel Ec). lia.
Qed.

Lemma hasRoom_bump (table : list quota) (t : string) (n : Z) :
  hasRoom table t n -> hasRoom (List.map (bumpQuota t 1) table) t (n - 1).
Proof.
  intros Hroom q' c' Hin Hc'. rewrite selectQuotas_bump in Hin.
  apply in_map_iff in Hin as (q & <- & Hin).
  assert (Ht : String.eqb (quotaType q) t = true) by now apply filter_In in Hin as [_ Hin].
  unfold bumpQuota in Hc'. rewrite Ht in Hc'. cbn in Hc'.
  destruct (currentValue q) as [c|] eqn:Ec; [|discriminate].
  injection Hc' as <-. destruct (Hroom q c Hin Ec). lia.
Qed.

(** On an empty table [initializeQuotas] leaves the two count rows: the
    default limit of [total_size], 10 GiB, does not fit the column, and that
    insert is rejected. *)
Lemma initializeQuotas_rows (st : state) :
  storageQuotas st = [] ->
  List.map (fun q => (quotaType q, limitValue q, currentValue q))
    (storageQuotas (initializeQuotas st))
  = [("profile_count"%string, 100, Some 0); ("snapshot_count"%string, 1000, Some 0)] /\
  selectQuotas (storageQuotas (initializeQuotas st)) "total_size" = [] /\
  checkQuota (initializeQuotas st) "total_size" = Ok tt.
Proof.
  intros H. unfold checkQuota, initializeQuotas. cbn [storageQuotas]. rewrite H.
  repeat split.
Qed.

Section Quota.

Context {C : ObjectStorage.Codecs}.

Variable byteLength : cached -> Z.
Variable cacheConfig : CacheManager.config.
Variable objectConfig : ObjectStorage.config.
Variable afterHit :
  world -> snapshotRequest -> ObjectStorage.dedupHit -> world * result snapshotView.

Local Abbreviation createProfile := (createProfile byteLength cacheConfig).
Local Abbreviation createProfiles := (createProfiles byteLength cacheConfig).
Local Abbreviation getProfile := (getProfile byteLength cacheConfig).
Local Abbreviation createSnapshot :=
  (createSnapshot byteLength cacheConfig objectConfig afterHit).

(** [checkQuota] against the first row of the type: it throws exactly when
    [currentValue >= limitValue]. *)
Lemma checkQuota_spec (st : state) (t : string) (q : quota) (rest : list quota) (c : Z) :
  selectQuotas (storageQuotas st) t = q :: rest ->
  currentValue q = Some c ->
  (c >= limitValue q -> checkQuota st t = Err QuotaExceeded) /\
  (c < limitValue q -> checkQuota st t = Ok tt).
Proof.
  intros Hsel Hc. unfold checkQuota, geNullable. rewrite Hsel, Hc.
  destruct (Z.geb_spec c (limitValue q)); split; intros; (reflexivity || lia).
Qed.

Lemma fresh_id (st : state) (p : profile) :
  ~ In (id p) (List.map id (profiles st)) ->
  existsb (fun q => String.eqb (id q) (id p)) (profiles st) = false.
Proof.
  intros Hnot. destruct (existsb _ _) eqn:E; [|reflexivity].
  apply existsb_exists in E as (q & Hin & Heq). apply String.eqb_eq in Heq.
  exfalso. apply Hnot. rewrite <- Heq. now apply in_map.
Qed.

(** A call at a full quota changes nothing and creates nothing. *)
Lemma createProfile_at_limit (st : state) (r : request) (q : quota)
  (rest : list quota) (c : Z) :
  selectQuotas (storageQuotas st) "profile_count" = q :: rest ->
  currentValue q = Some c ->
  c >= limitValue q ->
  createProfile st r = (st, Err QuotaExceeded).
Proof.
  intros Hsel Hc Hfull. unfold StorageManager.createProfile.
  now rewrite (proj1 (checkQuota_spec st _ Hsel Hc) Hfull).
Qed.

(** A call below the limit inserts the profile and counts it. *)
Lemma createProfile_below_limit (st : state) (r : request) (q : quota)
  (rest : list quota) (c : Z) :
  selectQuotas (storageQuotas st) "profile_count" = q :: rest ->
  currentValue q = Some c ->
  c < limitValue q ->
  updateAccepted (storageQuotas st) "profile_count" 1 = true ->
  ~ In (uuid r) (List.map id (profiles st)) ->
  exists st' q' rest',
    createProfile st r = (st', Ok (profileOf r)) /\
    profiles st' = profiles st ++ [profileOf r] /\
    storageQuotas st' = List.map (bumpQuota "profile_count" 1) (storageQuotas st) /\
    selectQuotas (storageQuotas st') "profile_count" = q' :: rest' /\
    limitValue q' = limitValue q /\
    currentValue q' = Some (c + 1).
Proof.
  intros Hsel Hc Hroom Hacc Hfresh. unfold StorageManager.createProfile.
  rewrite (proj2 (checkQuota_spec st _ Hsel Hc) Hroom).
  pose proof (fresh_id st (profileOf r) Hfresh) as Hf. unfold profileOf in Hf.
  unfold insertProfile. cbv zeta. rewrite Hf.
  unfold tryUpdateQuotaUsage. cbn [storageQuotas]. rewrite Hacc.
  eexists. exists (bumpQuota "profile_count" 1 q),
                  (List.map (bumpQuota "profile_count" 1) rest).
  split; [reflexivity|]. simpl. split; [reflexivity|]. split; [reflexivity|].
  rewrite selectQuotas_bump, Hsel. simpl. split; [reflexivity|].
  assert (Ht : String.eqb (quotaType q) "profile_count" = true).
  { assert (Hin : In q (selectQuotas (storageQuotas st) "profile_count"))
      by (rewrite Hsel; now left).
    now apply filter_In in Hin as [_ Hin]. }
  unfold bumpQuota. rewrite Ht. simpl. rewrite Hc. split; reflexivity.
Qed.

Lemma createProfiles_app (st : state) (a b : list request) :
  createProfiles st (a ++ b) =
  let '(st1, ra) := createProfiles st a in
  let '(st2, rb) := createProfiles st1 b in
  (st2, ra ++ rb).
Proof.
  revert st. induction a as [|r a IH]; intros st; simpl.
  - now destruct (createProfiles st b).
  - destruct (createProfile st r) as [st1 res]. rewrite IH.
    destruct (createProfiles st1 a) as [st2 ra].
    now destruct (createProfiles st2 b).
Qed.

(** While the count stays within the limit, every call of a sequence succeeds. *)
Lemma createProfiles_below_limit (rs : list request) (st : state) (q : quota)
  (rest : list quota) (c : Z) :
  selectQuotas (storageQuotas st) "profile_count" = q :: rest ->
  currentValue q = Some c ->
  c + Z.of_nat (List.length rs) <= limitValue q ->
  hasRoom (storageQuotas st) "profile_count" (Z.of_nat (List.length rs)) ->
  NoDup (List.map uuid rs) ->
  (forall r, In r rs -> ~ In (uuid r) (List.map id (profiles st))) ->
  exists st' q' rest',
    createProfiles st rs = (st', List.map (fun r => Ok (profileOf r)) rs) /\
    profiles st' = profiles st ++ List.map profileOf rs /\
    selectQuotas (storageQuotas st') "profile_count" = q' :: rest' /\
    limitValue q' = limitValue q /\
    currentValue q' = Some (c + Z.of_nat (List.length rs)).
Proof.
  revert st q rest c.
  induction rs as [|r rs IH]; intros st q rest c Hsel Hc Hroom Hfit Hnd Hfresh.
  - exists st, q, rest. simpl. rewrite app_nil_r, Z.add_0_r. now repeat split.
  - simpl List.length in Hroom, Hfit. simpl in Hnd.
    inversion Hnd as [|? ? Hnot Hnd']; subst.
    assert (Hacc : updateAccepted (storageQuotas st) "profile_count" 1 = true).
    { eapply hasRoom_accepts; [|exact Hfit]. lia. }
    destruct (@createProfile_below_limit st r q rest c Hsel Hc ltac:(lia) Hacc
                (Hfresh r (or_introl eq_refl)))
      as (st1 & q1 & rest1 & Hrun & Hprof & Hquotas & Hsel1 & Hlim1 & Hc1).
    destruct (IH st1 q1 rest1 (c + 1) Hsel1 Hc1 ltac:(lia)) as
      (st2 & q2 & rest2 & Hruns & Hprofs & Hsel2 & Hlim2 & Hc2).
    { rewrite Hquotas.
      replace (Z.of_nat (List.length rs)) with (Z.of_nat (S (List.length rs)) - 1) by lia.
      now apply hasRoom_bump. }
    { exact Hnd'. }
    { intros r' Hin. rewrite Hprof, map_app, in_app_iff. simpl.
      intros [Hold|[Heq|[]]].
      - now apply (Hfresh r' (or_intror Hin)).
      - apply Hnot. rewrite Heq. now apply in_map. }
    exists st2, q2, rest2. simpl. rewrite Hrun, Hruns.
    split; [reflexivity|]. split; [|split; [exact Hsel2|split; [lia|]]].
    + rewrite Hprofs, Hprof, <- app_assoc. reflexivity.
    + rewrite Hc2. f_equal. lia.
Qed.

(** *** Snapshots *)

Lemma getProfile_quotas (st : state) (t t' : Z) (pid : string) :
  storageQuotas (fst (getProfile st t t' pid)) = storageQuotas st.
Proof.
  unfold StorageManager.getProfile. cbv zeta.
  destruct (snd (CacheManager.get _ _ _ _)); [reflexivity|].
  cbn [withCache profiles].
  destruct (find _ _); [|reflexivity].
  destruct (forallb _ _); reflexivity.
Qed.

(** At a full [snapshot_count] quota the call changes nothing. *)
Lemma createSnapshot_at_limit (w : world) (r : snapshotRequest) :
  checkQuota (manager w) "snapshot_count" = Err QuotaExceeded ->
  createSnapshot w r = (w, Err QuotaExceeded).
Proof. intros H. unfold StorageManager.createSnapshot. now rewrite H. Qed.

(** Below the limit, a snapshot of content that is not in the index is
    stored, recorded and counted; the row of [total_size] takes the
    compressed size, and its limit is not looked at. *)
Lemma createSnapshot_new_content {L : ObjectStorage.CodecLaws C} (w : world)
  (r : snapshotRequest) (m1 : state) (c : cached) (P : buffer) (ek : string) :
  checkQuota (manager w) "snapshot_count" = Ok tt ->
  getProfile (manager w) (snap_lookupAt r) (snap_cachedAt r) (snap_profile r)
    = (m1, Ok (Some c)) ->
  existsb (fun p => String.eqb (id p) (snap_profile r)) (profiles m1) = true ->
  existsb (fun x => String.eqb (snap_id x) (snap_uuid r)) (snapshots w) = false ->
  ObjectStorage.files (objectStorage w) (snap_source r) = Some P ->
  JS.get (ObjectStorage.deduplicationMap (objectStorage w)) (ObjectStorage.sha256 P) = None ->
  encryptionKey w = Some ek ->
  ObjectStorage.validKey ek ->
  snap_writeFault r = ObjectStorage.NoFault ->
  snap_profileUpdateRejected r = false ->
  let csize := Z.of_nat (List.length (ObjectStorage.gzip
                                        (ObjectStorage.compressionLevel objectConfig) P)) in
  int4 (Z.of_nat (List.length P)) = true ->
  int4 csize = true ->
  updateAccepted (storageQuotas (manager w)) "snapshot_count" 1 = true ->
  updateAccepted (List.map (bumpQuota "snapshot_count" 1) (storageQuotas (manager w)))
    "total_size" csize = true ->
  exists w' v,
    createSnapshot w r = (w', Ok v) /\
    snapshots w' = snapshots w ++ [view_row v] /\
    snap_id (view_row v) = snap_uuid r /\
    snap_objectStorageKey (view_row v) = objectKeyOf r /\
    snap_sizeBytes (view_row v) = Z.of_nat (List.length P) /\
    snap_compressedSize (view_row v) = csize /\
    storageQuotas (manager w')
    = List.map (bumpQuota "total_size" csize)
        (List.map (bumpQuota "snapshot_count" 1) (storageQuotas (manager w))).
Proof.
  intros Hcheck Hget Hprof Hfresh HP Hnew Hkey Hvalid Hflt Hrej csize Ho Hc Hacc1 Hacc2.
  unfold StorageManager.createSnapshot. rewrite Hcheck, Hget. cbn [fst snd].
  rewrite Hflt.
  assert (Hk : ObjectStorage.opt_encrypt (snapshotOptions (withManager w m1)) = true ->
               exists k, ObjectStorage.opt_encryptionKey (snapshotOptions (withManager w m1))
                         = Some k /\ ObjectStorage.validKey k).
  { intros _. exists ek. split; [exact Hkey | exact Hvalid]. }
  destruct (ObjectStorageFacts.encryptStep_total (snap_entropy r)
              (snapshotOptions (withManager w m1))
              (ObjectStorage.compressStep objectConfig (snapshotOptions (withManager w m1)) P)
              Hk) as [d2 He].
  destruct (ObjectStorageFacts.storeNew_written objectConfig (snap_entropy r)
              (objectStorage (withManager w m1)) (objectKeyOf r) (snap_source r)
              (snapshotOptions (withManager w m1)) (Some (ObjectStorage.sha256 P)) HP He)
    as (os' & sr & Hs & _ & _ & _ & Hosize & Hcsize & _).
  assert (Hstore : ObjectStorage.store objectConfig ObjectStorage.NoFault (snap_entropy r)
                     (objectStorage (withManager w m1)) (objectKeyOf r) (snap_source r)
                     (snapshotOptions (withManager w m1))
                   = (os', Ok (ObjectStorage.Stored sr))).
  { erewrite ObjectStorageFacts.store_fresh; [exact Hs | exact HP | right; exact Hnew]. }
  rewrite Hstore. cbn [fst snd].
  assert (Hcs : ObjectStorage.compressedSize sr = csize) by (rewrite Hcsize; reflexivity).
  assert (Hquotas : storageQuotas m1 = storageQuotas (manager w)).
  { pose proof (getProfile_quotas (manager w) (snap_lookupAt r) (snap_cachedAt r)
                  (snap_profile r)) as Hq. now rewrite Hget in Hq. }
  unfold recordSnapshot, insertSnapshot.
  cbn [snap_id snap_profileId snap_sizeBytes snap_compressedSize
       withObjects withManager manager snapshots objectStorage encryptionKey].
  rewrite Hfresh, Hprof, Hosize, Hcs, Ho, Hc. cbn [negb orb andb].
  cbn [manager]. rewrite Hrej.
  unfold tryUpdateQuotaUsage. rewrite Hquotas, Hacc1.
  cbn [updateQuotaUsage storageQuotas]. rewrite Hquotas, Hacc2.
  eexists. eexists. split; [reflexivity|].
  cbn [view_row snapshots withManager snap_id snap_objectStorageKey snap_sizeBytes
       snap_compressedSize manager trackPerformance withCache storageQuotas
       updateQuotaUsage].
  rewrite Hquotas. repeat split.
Qed.


End Quota.

(** *** A run with a limit of two, and a snapshot at a full [total_size] *)

Section Runs.

Local Existing Instance Framed.codecs.

Lemma limitTwo_hasRoom :
  hasRoom (storageQuotas Samples.limitTwo) "profile_count"
    (Z.of_nat (List.length Samples.firstTwo)).
Proof.
  intros q c Hin Hc. simpl in Hin. destruct Hin as [<-|[]].
  injection Hc as <-. simpl. lia.
Qed.



End Runs.

End StorageManagerFacts.

(** ** CacheManager: lookups, expiry and statistics *)

Module CacheManagerMore.

Import CacheManager CacheManagerFacts.

Local Open Scope Z_scope.

Section Lookups.

Variable V : Type.
Variable byteLength : V -> Z.

Local Abbreviation entries := (JS.map (memEntry V)).
Local Abbreviation set := (set byteLength).

Lemma get_delete (W : Type) (m : JS.map W) (k k' : string) :
  JS.get (JS.delete m k) k' = if String.eqb k k' then None else JS.get m k'.
Proof.
  unfold JS.delete. induction m as [|[k1 e1] r IH]; simpl.
  - now destruct (String.eqb k k').
  - destruct (String.eqb_spec k1 k) as [->|H1]; simpl; rewrite IH.
    + destruct (String.eqb k k'); reflexivity.
    + destruct (String.eqb_spec k1 k'), (String.eqb_spec k k'); subst;
        try congruence; reflexivity.
Qed.

(** Eviction only removes: a key is afterwards either absent or bound as it
    was. *)
Lemma evictLoop_get (cfg : config) (fuel : nat) (st : state V) (k : string) :
  JS.get (memoryCache (evictLoop fuel cfg st)) k = None \/
  JS.get (memoryCache (evictLoop fuel cfg st)) k = JS.get (memoryCache st) k.
Proof.
  revert st. induction fuel as [|n IH]; intros st; simpl; [now right|].
  destruct (_ && _); [|now right].
  destruct (scanOldest _ _ _) as [k0|]; [|now right].
  destruct (JS.truthyStr k0); [|now right].
  destruct (JS.get (memoryCache st) k0) as [e|]; [|now right].
  destruct (IH (evictOne st k0 e)) as [H|H]; [now left|].
  rewrite H. simpl. rewrite get_delete.
  destruct (String.eqb k0 k); [left | right]; reflexivity.
Qed.

Lemma evictLoop_counters (cfg : config) (fuel : nat) (st : state V) :
  hits (stat (evictLoop fuel cfg st)) = hits (stat st) /\
  misses (stat (evictLoop fuel cfg st)) = misses (stat st).
Proof.
  revert st. induction fuel as [|n IH]; intros st; simpl; [now split|].
  destruct (_ && _); [|now split].
  destruct (scanOldest _ _ _) as [k0|]; [|now split].
  destruct (JS.truthyStr k0); [|now split].
  destruct (JS.get (memoryCache st) k0) as [e|]; [|now split].
  destruct (IH (evictOne st k0 e)) as [H1 H2]. now rewrite H1, H2.
Qed.

(** What [set] leaves behind for its key: the table row, and in memory
    either the new entry or, when eviction took it, nothing. *)
Lemma set_leaves (cfg : config) (now : Z) (st : state V) (k : string) (v : V)
  (ttlMs : option Z) :
  let expires := now + JS.orDefault ttlMs (defaultTTL cfg) in
  (JS.get (memoryCache (set cfg now st k v ttlMs)) k = None \/
   JS.get (memoryCache (set cfg now st k v ttlMs)) k
     = Some {| value := v; expiresAt := expires; sizeBytes := byteLength v |}) /\
  exists row,
    JS.get (db (set cfg now st k v ttlMs)) k = Some row /\
    row_value row = v /\ row_expiresAt row = Some expires.
Proof.
  cbv zeta. unfold CacheManager.set. cbn [memoryCache db]. split.
  - unfold evictIfNeeded.
    match goal with |- context [evictLoop ?f cfg ?s] =>
      destruct (evictLoop_get cfg f s k) as [H|H] end; [now left|].
    right. rewrite H. cbn [memoryCache]. apply JSFacts.get_set_same.
  - unfold upsert. eexists. split; [apply JSFacts.get_set_same|]. now split.
Qed.

(** After [set], the table part of [get] for the key is decided by the expiry
    time that [set] wrote. *)
Lemma set_getFromDb (cfg : config) (now now' : Z) (st : state V) (k : string)
  (v : V) (ttlMs : option Z) (m : entries) :
  let expires := now + JS.orDefault ttlMs (defaultTTL cfg) in
  let st1 := set cfg now st k v ttlMs in
  ((expires >? now') = true -> snd (getFromDb cfg now' st1 m k) = Some v) /\
  ((expires >? now') = false ->
   getFromDb cfg now' st1 m k = (withMiss st1 m (JS.delete (db st1) k), None)).
Proof.
  cbv zeta.
  destruct (set_leaves cfg now st k v ttlMs) as [_ (row & Hrow & Hval & Hexp)].
  cbv zeta in Hexp. unfold getFromDb. rewrite Hrow, Hexp, Hval.
  split; intros ->; reflexivity.
Qed.

(** Before the expiry time the value is served, from memory or from the table. *)
Lemma set_get_live (cfg : config) (now now' : Z) (st : state V) (k : string)
  (v : V) (ttlMs : option Z) :
  now' < now + JS.orDefault ttlMs (defaultTTL cfg) ->
  snd (get cfg now' (set cfg now st k v ttlMs) k) = Some v.
Proof.
  intros Hlive.
  assert (Hgt : (now + JS.orDefault ttlMs (defaultTTL cfg) >? now') = true) by lia.
  destruct (set_leaves cfg now st k v ttlMs) as [Hmem _]. cbv zeta in Hmem.
  unfold get. destruct Hmem as [Hmem|Hmem]; rewrite Hmem.
  - now apply set_getFromDb.
  - cbn [expiresAt value]. now rewrite Hgt.
Qed.


(** After [delete], a lookup of the key finds it in neither layer and counts
    one miss. *)
Theorem delete_then_get (cfg : config) (now : Z) (st : state V) (k : string) :
  let after := get cfg now (delete st k) k in
  snd after = None /\
  misses (stat (fst after)) = misses (stat st) + 1 /\
  hits (stat (fst after)) = hits (stat st) /\
  JS.get (memoryCache (fst after)) k = None /\
  JS.get (db (fst after)) k = None.
Proof.
  cbv zeta. unfold get, delete, getFromDb. cbn [memoryCache db stat].
  rewrite !JSFacts.get_delete_same. cbn.
  repeat split; apply JSFacts.get_delete_same.
Qed.

(** After [clear], every key is absent, in memory and in the table. *)
Lemma clear_then_get (cfg : config) (now : Z) (st : state V) (k : string) :
  snd (get cfg now (clear st) k) = None /\
  memoryCache (clear st) = [] /\ db (clear st) = [] /\
  totalMemoryBytes (stat (clear st)) = 0.
Proof. repeat split. Qed.

(** Every [get] counts exactly once: a hit when it returns a value, a miss
    when it returns nothing; it never changes the eviction count or the
    tracked byte total. *)
Theorem get_counts_once (cfg : config) (now : Z) (st : state V) (k : string) :
  let after := get cfg now st k in
  (match snd after with
   | Some _ => hits (stat (fst after)) = hits (stat st) + 1 /\
               misses (stat (fst after)) = misses (stat st)
   | None => hits (stat (fst after)) = hits (stat st) /\
             misses (stat (fst after)) = misses (stat st) + 1
   end) /\
  evictions (stat (fst after)) = evictions (stat st) /\
  totalMemoryBytes (stat (fst after)) = totalMemoryBytes (stat st).
Proof.
  cbv zeta. unfold get, getFromDb.
  destruct (JS.get (memoryCache st) k) as [e|];
    [destruct (expiresAt e >? now); [cbn; now repeat split|]|];
    (destruct (JS.get (db st) k) as [row|]; [|cbn; now repeat split];
     destruct (match row_expiresAt row with Some t => t >? now | None => true end);
     cbn; now repeat split).
Qed.

Lemma incrementHitCount_get (now : Z) (table : JS.map (row V)) (k : string) :
  match JS.get table k with
  | Some r =>
      exists r', JS.get (incrementHitCount now table k) k = Some r' /\
                 row_value r' = row_value r /\ row_expiresAt r' = row_expiresAt r
  | None => JS.get (incrementHitCount now table k) k = None
  end.
Proof.
  unfold incrementHitCount. destruct (JS.get table k) as [r|] eqn:E; [|exact E].
  eexists. split; [apply JSFacts.get_set_same|]. now split.
Qed.

Lemma getFromDb_then_get (cfg : config) (now : Z) (st0 : state V) (m : entries)
  (k : string) :
  JS.get m k = None ->
  snd (get cfg now (fst (getFromDb cfg now st0 m k)) k)
  = snd (getFromDb cfg now st0 m k).
Proof.
  intros Hm. unfold getFromDb.
  pose proof (incrementHitCount_get now (db st0) k) as Hinc.
  destruct (JS.get (db st0) k) as [row|] eqn:Erow.
  - destruct Hinc as (row' & Hrow' & Hval & Hexp).
    destruct (match row_expiresAt row with Some t => t >? now | None => true end)
      eqn:Elive; cbn [fst snd]; unfold get, withHit, withMiss; cbn [memoryCache db].
    + rewrite JSFacts.get_set_same. cbn [expiresAt value].
      destruct (_ >? now); [reflexivity|].
      unfold getFromDb. cbn [db]. rewrite Hrow', Hexp, Elive. cbn. now rewrite Hval.
    + rewrite Hm. unfold getFromDb. cbn [db]. now rewrite JSFacts.get_delete_same.
  - cbn [fst snd]. unfold get, withMiss; cbn [memoryCache db].
    rewrite Hm. unfold getFromDb. cbn [db]. now rewrite Erow.
Qed.

(** Asking twice at the same clock reading gives the same answer: a value
    promoted from the table by the first call is the value the second call
    returns, and a key reported absent stays absent. *)
Theorem get_twice_same (cfg : config) (now : Z) (st : state V) (k : string) :
  snd (get cfg now (fst (get cfg now st k)) k) = snd (get cfg now st k).
Proof.
  unfold get at 2 3.
  destruct (JS.get (memoryCache st) k) as [e|] eqn:Emem.
  - destruct (expiresAt e >? now) eqn:Elive.
    + cbn [fst snd]. unfold get, withHit. cbn [memoryCache]. now rewrite Emem, Elive.
    + apply getFromDb_then_get. apply JSFacts.get_delete_same.
  - now apply getFromDb_then_get.
Qed.

(** *** The sweep *)

Lemma filter_twice (A : Type) (f g : A -> bool) (l : list A) :
  filter f (filter g l) = filter (fun x => g x && f x) l.
Proof.
  induction l as [|x l IH]; simpl; [reflexivity|].
  destruct (g x); simpl; [destruct (f x)|]; now rewrite IH.
Qed.

(** The loop of [cleanupExpired] removes from the map every key that the
    iterated entries show as expired. *)
Lemma cleanup_fold_filter (now : Z) (todo m : entries) (total : Z) :
  fst (fold_left (cleanupEntry now) todo (m, total))
  = filter (fun kv => negb (existsb (fun kv' => String.eqb (fst kv') (fst kv)
                                                && expired now kv') todo)) m.
Proof.
  revert m total. induction todo as [|[k e] r IH]; intros m total.
  - simpl. symmetry. apply forallb_filter_id. now apply forallb_forall.
  - cbn [fold_left].
    assert (Hstep : cleanupEntry now (m, total) (k, e)
                    = if expired now (k, e)
                      then (JS.delete m k, total - sizeBytes e) else (m, total))
      by reflexivity.
    rewrite Hstep. destruct (expired now (k, e)) eqn:E; rewrite IH.
    + unfold JS.delete. rewrite filter_twice. apply filter_ext.
      intros [k' e']. cbn [existsb fst]. rewrite E, andb_true_r, negb_orb.
      now rewrite (String.eqb_sym k k').
    + apply filter_ext. intros [k' e']. cbn [existsb fst].
      now rewrite E, andb_false_r.
Qed.

Lemma expired_in_distinct (now : Z) (m : entries) (kv : string * memEntry V) :
  distinctKeys m -> In kv m ->
  existsb (fun kv' => String.eqb (fst kv') (fst kv) && expired now kv') m
  = expired now kv.
Proof.
  intros Hnd Hin. destruct (expired now kv) eqn:E.
  - apply existsb_exists. exists kv. split; [exact Hin|].
    now rewrite String.eqb_refl, E.
  - destruct (existsb _ m) eqn:Ex; [|reflexivity].
    apply existsb_exists in Ex as ([k' e'] & Hin' & Hboth).
    apply andb_prop in Hboth as [Hk He]. apply String.eqb_eq in Hk. cbn [fst] in Hk.
    destruct kv as [k e]. cbn [fst] in Hk. subst k'.
    pose proof (@get_of_In V m k e Hnd Hin) as H1.
    pose proof (@get_of_In V m k e' Hnd Hin') as H2.
    rewrite H1 in H2. injection H2 as <-. congruence.
Qed.

(** [cleanupExpired] keeps exactly the entries that have not expired, in
    their order, in memory and in the table; table rows without an expiry
    time are kept. *)
Theorem cleanupExpired_keeps_live (now : Z) (st : state V) :
  distinctKeys (memoryCache st) ->
  memoryCache (cleanupExpired now st)
    = filter (fun kv => negb (expiresAt (snd kv) <? now)) (memoryCache st) /\
  db (cleanupExpired now st)
    = filter (fun kr => match row_expiresAt (snd kr) with
                        | Some t => negb (t <? now)
                        | None => true
                        end) (db st) /\
  (forall k e, In (k, e) (memoryCache (cleanupExpired now st)) -> now <= expiresAt e).
Proof.
  intros Hnd.
  assert (Hmem : memoryCache (cleanupExpired now st)
                 = filter (fun kv => negb (expiresAt (snd kv) <? now)) (memoryCache st)).
  { unfold cleanupExpired.
    pose proof (cleanup_fold_filter now (memoryCache st) (memoryCache st)
                  (totalMemoryBytes (stat st))) as Hfold.
    destruct (fold_left _ _ _) as [m total]. cbn [fst] in Hfold. cbn [memoryCache].
    rewrite Hfold. apply filter_ext_in. intros kv Hin.
    now rewrite (@expired_in_distinct now (memoryCache st) kv Hnd Hin). }
  split; [exact Hmem|]. split.
  - unfold cleanupExpired. now destruct (fold_left _ _ _).
  - intros k e Hin. rewrite Hmem in Hin. apply filter_In in Hin as [_ Hlive].
    cbn [snd] in Hlive. destruct (Z.ltb_spec (expiresAt e) now); [discriminate | lia].
Qed.

(** *** Where the byte total is kept exact *)

Lemma memoryBytes_set_absent (m : entries) (k : string) (e : memEntry V) :
  JS.get m k = None -> memoryBytes (JS.set m k e) = memoryBytes m + sizeBytes e.
Proof.
  induction m as [|[k1 e1] r IH]; simpl; intros Hget; [lia|].
  destruct (String.eqb k1 k); [discriminate|]. simpl. rewrite (IH Hget). lia.
Qed.

Lemma set_keys_absent (m : entries) (k : string) (e : memEntry V) :
  JS.get m k = None -> List.map fst (JS.set m k e) = List.map fst m ++ [k].
Proof.
  induction m as [|[k1 e1] r IH]; simpl; intros Hget; [reflexivity|].
  destruct (String.eqb k1 k); [discriminate|]. simpl. now rewrite (IH Hget).
Qed.

Lemma get_none_not_key (m : entries) (k : string) :
  JS.get m k = None -> ~ In k (List.map fst m).
Proof.
  induction m as [|[k1 e1] r IH]; simpl; intros Hget; [tauto|].
  destruct (String.eqb_spec k1 k) as [->|Hne]; [discriminate|].
  intros [H|H]; [congruence | now apply IH].
Qed.

Lemma set_absent_distinct (m : entries) (k : string) (e : memEntry V) :
  distinctKeys m -> JS.get m k = None -> distinctKeys (JS.set m k e).
Proof.
  unfold distinctKeys. intros Hnd Hget. rewrite (@set_keys_absent m k e Hget).
  apply NoDup_app; [exact Hnd | repeat constructor; tauto |].
  intros x Hx [Heq|[]]. subst x. exact (@get_none_not_key m k Hget Hx).
Qed.

(** The paths that adjust the counter keep it equal to the bytes in the map:
    eviction, the sweep, [clear], and [set] of a key that is not in memory.
    (The paths that change the map without the counter do not.) *)
Theorem byte_total_kept_exact (st : state V) :
  distinctKeys (memoryCache st) ->
  accounted st ->
  (forall cfg, accounted (evictIfNeeded cfg st)) /\
  (forall now, accounted (cleanupExpired now st)) /\
  accounted (clear st) /\
  (forall cfg now k v ttlMs,
     JS.get (memoryCache st) k = None -> accounted (set cfg now st k v ttlMs)).
Proof.
  intros Hnd Hacc. split; [|split; [|split]].
  - intros cfg. now apply evictLoop_accounted.
  - intros now. now apply cleanupExpired_accounted.
  - reflexivity.
  - intros cfg now k v ttlMs Hget.
    set (e := {| value := v; expiresAt := now + JS.orDefault ttlMs (defaultTTL cfg);
                 sizeBytes := byteLength v |}).
    assert (Hev : accounted
              (evictIfNeeded cfg
                 {| memoryCache := JS.set (memoryCache st) k e;
                    stat := {| hits := hits (stat st); misses := misses (stat st);
                               evictions := evictions (stat st);
                               totalMemoryBytes := totalMemoryBytes (stat st) + byteLength v |};
                    db := db st |})).
    { apply evictLoop_accounted; cbn [memoryCache].
      - now apply set_absent_distinct.
      - unfold accounted in *. cbn [memoryCache stat totalMemoryBytes].
        rewrite (@memoryBytes_set_absent (memoryCache st) k e Hget). cbn [sizeBytes e]. lia. }
    exact Hev.
Qed.

(** *** Statistics *)

Lemma step_counters (cfg : config) (st : state V) (c : Z * op V) :
  0 <= hits (stat st) /\ 0 <= misses (stat st) ->
  0 <= hits (stat (step byteLength cfg st c)) /\
  0 <= misses (stat (step byteLength cfg st c)).
Proof.
  intros [Hh Hm]. destruct c as [now [k v ttl|k| k | |]]; unfold step; cbn [fst snd].
  - unfold CacheManager.set. cbn [stat]. unfold evictIfNeeded.
    match goal with |- context [evictLoop ?f cfg ?s] =>
      destruct (evictLoop_counters cfg f s) as [H1 H2] end.
    rewrite H1, H2. cbn. now split.
  - unfold get, getFromDb.
    destruct (JS.get (memoryCache st) k) as [e|];
      [destruct (expiresAt e >? now); [cbn; lia|]|];
      (destruct (JS.get (db st) k) as [row|]; [|cbn; lia];
       destruct (match row_expiresAt row with Some t => t >? now | None => true end);
       cbn; lia).
  - now split.
  - now split.
  - unfold cleanupExpired. destruct (fold_left _ _ _). now split.
Qed.

Lemma run_counters (cfg : config) (calls : list (Z * op V)) (st : state V) :
  0 <= hits (stat st) /\ 0 <= misses (stat st) ->
  0 <= hits (stat (run byteLength cfg st calls)) /\
  0 <= misses (stat (run byteLength cfg st calls)).
Proof.
  revert st. unfold run. induction calls as [|c calls IH]; intros st H; simpl; [exact H|].
  apply IH. now apply step_counters.
Qed.

(** After any sequence of calls on a new cache, the hit rate reported by
    [getStats] lies between 0 and 100, and it is 0 while no lookup has been
    counted. *)
Theorem hitRate_percent (cfg : config) (table : JS.map (row V))
  (calls : list (Z * op V)) :
  let st := run byteLength cfg (initial table) calls in
  (0 <= hitRate (getStats st))%Q /\
  (hitRate (getStats st) <= 100)%Q /\
  (hits (stat st) + misses (stat st) = 0 -> (hitRate (getStats st) == 0)%Q).
Proof.
  cbv zeta.
  destruct (run_counters cfg calls (initial table)) as [Hh Hm]; [cbn; lia|].
  set (st := run byteLength cfg (initial table) calls) in *.
  unfold getStats. cbn [hitRate].
  destruct (Z.gtb_spec (hits (stat st) + misses (stat st)) 0) as [Hpos|Hzero].
  - destruct (hits (stat st) + misses (stat st)) as [|p|p] eqn:Esum; try lia.
    repeat split.
    + unfold Qle, Qdiv, Qmult, Qinv, inject_Z; cbn [Qnum Qden].
      rewrite ?Pos.mul_1_l, ?Pos.mul_1_r. lia.
    + unfold Qle, Qdiv, Qmult, Qinv, inject_Z; cbn [Qnum Qden].
      rewrite ?Pos.mul_1_l, ?Pos.mul_1_r. nia.
    + lia.
  - repeat split; try reflexivity; unfold Qle; cbn; lia.
Qed.

End Lookups.

(** *** Runs *)


Lemma cleanupExpired_keeps_live_witness :
  let st := MoreSamples.twoEntries in
  memoryCache (cleanupExpired 7 st)
    = filter (fun kv => negb (expiresAt (snd kv) <? 7)) (memoryCache st) /\
  db (cleanupExpired 7 st)
    = filter (fun kr => match row_expiresAt (snd kr) with
                        | Some t => negb (t <? 7)
                        | None => true
                        end) (db st) /\
  (forall k e, In (k, e) (memoryCache (cleanupExpired 7 st)) -> 7 <= expiresAt e).
Proof.
  apply (@cleanupExpired_keeps_live Z 7 MoreSamples.twoEntries).
  repeat constructor; simpl; intuition discriminate.
Defined.

Lemma byte_total_kept_exact_witness :
  let st := MoreSamples.twoEntries in
  (forall cfg, accounted (evictIfNeeded cfg st)) /\
  (forall now, accounted (cleanupExpired now st)) /\
  accounted (clear st) /\
  (forall cfg now k v ttlMs,
     JS.get (memoryCache st) k = None ->
     accounted (CacheManager.set Samples.sized cfg now st k v ttlMs)).
Proof.
  apply (@byte_total_kept_exact Z Samples.sized MoreSamples.twoEntries).
  - repeat constructor; simpl; intuition discriminate.
  - reflexivity.
Defined.


End CacheManagerMore.

(** ** CacheManager: eviction on the keys the program uses *)

Module CacheEviction.

Import CacheManager CacheManagerFacts CacheManagerMore.

Local Open Scope Z_scope.

Section Keys.

Variable V : Type.
Variable byteLength : V -> Z.

Local Abbreviation entries := (JS.map (memEntry V)).

Lemma set_keys_present (m : entries) (k : string) (e e0 : memEntry V) :
  JS.get m k = Some e0 -> List.map fst (JS.set m k e) = List.map fst m.
Proof.
  induction m as [|[k1 e1] r IH]; simpl; [discriminate|].
  destruct (String.eqb_spec k1 k) as [->|Hne]; simpl; [reflexivity|].
  intros H. now rewrite (IH H).
Qed.

Lemma set_distinct (m : entries) (k : string) (e : memEntry V) :
  distinctKeys m -> distinctKeys (JS.set m k e).
Proof.
  intros Hnd. destruct (JS.get m k) as [e0|] eqn:Hg.
  - unfold distinctKeys. now rewrite (@set_keys_present m k e e0 Hg).
  - now apply set_absent_distinct.
Qed.

Lemma In_set (m : entries) (k k' : string) (e e' : memEntry V) :
  In (k', e') (JS.set m k e) -> (k', e') = (k, e) \/ In (k', e') m.
Proof.
  induction m as [|[k1 e1] r IH]; simpl.
  - intros [H|[]]. left. now symmetry.
  - destruct (String.eqb k1 k); simpl.
    + intros [H|H]; [left; now symmetry | right; now right].
    + intros [H|H]; [right; now left|].
      destruct (IH H) as [H'|H']; [now left | right; now right].
Qed.

Lemma set_truthy (m : entries) (k : string) (e : memEntry V) :
  JS.truthyStr k = true -> truthyKeys m -> truthyKeys (JS.set m k e).
Proof.
  intros Hk Ht k' e' Hin. destruct (In_set _ _ _ _ _ Hin) as [[= -> _]|H].
  - exact Hk.
  - exact (Ht _ _ H).
Qed.

Lemma evictLoop_keys (cfg : config) (fuel : nat) (st : state V) :
  distinctKeys (memoryCache st) /\ truthyKeys (memoryCache st) ->
  distinctKeys (memoryCache (evictLoop fuel cfg st)) /\
  truthyKeys (memoryCache (evictLoop fuel cfg st)).
Proof.
  revert st. induction fuel as [|n IH]; intros st H; simpl; [exact H|].
  destruct (_ && _); [|exact H].
  destruct (scanOldest _ _ _) as [k0|]; [|exact H].
  destruct (JS.truthyStr k0); [|exact H].
  destruct (JS.get (memoryCache st) k0) as [e|]; [|exact H].
  apply IH. cbn [evictOne memoryCache]. destruct H as [Hd Ht].
  split; [now apply delete_distinct | now apply delete_truthy].
Qed.

Lemma filter_keys (f : string * memEntry V -> bool) (m : entries) :
  distinctKeys m /\ truthyKeys m ->
  distinctKeys (filter f m) /\ truthyKeys (filter f m).
Proof.
  intros [Hd Ht]. split.
  - clear Ht. unfold distinctKeys in *.
    induction m as [|[k e] r IH]; simpl; [constructor|].
    inversion Hd as [|? ? Hnot Hd']; subst.
    destruct (f (k, e)); simpl; [|now apply IH].
    constructor; [|now apply IH].
    intros Hin. apply Hnot. apply in_map_iff in Hin as ([k' e'] & Hk & Hin).
    apply filter_In in Hin as [Hin _]. apply in_map_iff. now exists (k', e').
  - intros k e Hin. apply filter_In in Hin as [Hin _]. exact (Ht _ _ Hin).
Qed.

Lemma getFromDb_keys (cfg : config) (now : Z) (st : state V) (m : entries) (k : string) :
  JS.truthyStr k = true ->
  distinctKeys m /\ truthyKeys m ->
  distinctKeys (memoryCache (fst (getFromDb cfg now st m k))) /\
  truthyKeys (memoryCache (fst (getFromDb cfg now st m k))).
Proof.
  intros Hk H. unfold getFromDb.
  destruct (JS.get (db st) k) as [entry|]; [|exact H].
  destruct (match row_expiresAt entry with Some t => t >? now | None => true end);
    [|exact H].
  cbn [fst withHit memoryCache]. destruct H as [Hd Ht].
  split; [now apply set_distinct | now apply set_truthy].
Qed.

Lemma step_keys (cfg : config) (st : state V) (c : Z * op V) :
  nonEmptyKey (snd c) ->
  distinctKeys (memoryCache st) /\ truthyKeys (memoryCache st) ->
  distinctKeys (memoryCache (step byteLength cfg st c)) /\
  truthyKeys (memoryCache (step byteLength cfg st c)).
Proof.
  intros Hk H. unfold step. destruct (snd c) as [k v ttl|k|k| |]; cbn [nonEmptyKey] in Hk.
  - unfold CacheManager.set, evictIfNeeded. cbn [memoryCache].
    apply evictLoop_keys. cbn [memoryCache]. destruct H as [Hd Ht].
    split; [now apply set_distinct | now apply set_truthy].
  - unfold get. destruct (JS.get (memoryCache st) k) as [me|].
    + destruct (expiresAt me >? fst c); [exact H|].
      apply getFromDb_keys; [exact Hk|]. destruct H as [Hd Ht].
      split; [now apply delete_distinct | now apply delete_truthy].
    + now apply getFromDb_keys.
  - cbn [delete memoryCache]. destruct H as [Hd Ht].
    split; [now apply delete_distinct | now apply delete_truthy].
  - cbn [clear memoryCache]. split; [constructor | intros k e []].
  - unfold cleanupExpired.
    pose proof (cleanup_fold_filter (fst c) (memoryCache st) (memoryCache st)
                  (totalMemoryBytes (stat st))) as Hfold.
    destruct (fold_left _ _ _) as [m total]. cbn [memoryCache fst] in *. subst m.
    now apply filter_keys.
Qed.

(** Every state that calls with non-empty keys reach from a new cache has one
    entry per key and no empty key in memory, and so has the state in which
    a further [set] with a non-empty key calls [evictIfNeeded]. *)
Lemma run_keys_nonempty (cfg : config) (table : JS.map (row V))
  (calls : list (Z * op V)) :
  nonEmptyKeys calls ->
  let st := run byteLength cfg (initial table) calls in
  (distinctKeys (memoryCache st) /\ truthyKeys (memoryCache st)) /\
  (forall now k v ttlMs,
     JS.truthyStr k = true ->
     distinctKeys (memoryCache (setMemory byteLength cfg now st k v ttlMs)) /\
     truthyKeys (memoryCache (setMemory byteLength cfg now st k v ttlMs)) /\
     memoryCache (set byteLength cfg now st k v ttlMs)
       = memoryCache (evictIfNeeded cfg (setMemory byteLength cfg now st k v ttlMs)) /\
     stat (set byteLength cfg now st k v ttlMs)
       = stat (evictIfNeeded cfg (setMemory byteLength cfg now st k v ttlMs))).
Proof.
  intros Hall. cbv zeta.
  assert (Hrun : forall st0,
            distinctKeys (memoryCache st0) /\ truthyKeys (memoryCache st0) ->
            distinctKeys (memoryCache (run byteLength cfg st0 calls)) /\
            truthyKeys (memoryCache (run byteLength cfg st0 calls))).
  { unfold run. induction calls as [|c r IH]; intros st0 H; [exact H|].
    inversion Hall as [|? ? Hc Hr]; subst. simpl.
    apply (IH Hr). now apply step_keys. }
  assert (H0 : distinctKeys (memoryCache (initial table)) /\
               truthyKeys (memoryCache (initial table))).
  { split; [constructor | intros k e []]. }
  pose proof (Hrun _ H0) as [Hd Ht]. split; [now split|].
  intros now k v ttlMs Hk. cbn [setMemory memoryCache].
  split; [now apply set_distinct|]. split; [now apply set_truthy|].
  split; reflexivity.
Qed.


End Keys.

(** *** Runs *)


(** The three entries of the sample, 2.2 MB under a budget of 1 MB: the two
    that expire first are evicted, in that order. *)
Lemma eviction_order_on_sample :
  List.map fst (memoryCache MoreSamples.crowded) = ["late"; "soon"; "mid"]%string /\
  List.map fst (memoryCache (evictIfNeeded Samples.oneMB MoreSamples.crowded))
    = ["late"]%string /\
  evictions (stat (evictIfNeeded Samples.oneMB MoreSamples.crowded)) = 2 /\
  totalMemoryBytes (stat (evictIfNeeded Samples.oneMB MoreSamples.crowded)) = 900000.
Proof. repeat split. Qed.

End CacheEviction.

(** ** ObjectStorage: errors, frames and moves *)

Module ObjectStorageMore.

Import ObjectStorage ObjectStorageFacts.

Lemma get_set_other (W : Type) (m : JS.map W) (k k' : string) (v : W) :
  k' <> k -> JS.get (JS.set m k v) k' = JS.get m k'.
Proof.
  intros Hne. induction m as [|[k1 v1] r IH]; simpl.
  - destruct (String.eqb_spec k k'); [congruence | reflexivity].
  - destruct (String.eqb_spec k1 k) as [->|H1]; simpl.
    + destruct (String.eqb_spec k k'); [congruence | reflexivity].
    + destruct (String.eqb k1 k'); [reflexivity | exact IH].
Qed.

Lemma hexDecode_length_bound (n : nat) (s : string) :
  (String.length s <= n)%nat -> (2 * List.length (JS.hexDecode s) <= String.length s)%nat.
Proof.
  revert s. induction n as [|n IH]; intros s Hn.
  - destruct s; simpl in *; lia.
  - destruct s as [|a [|b r]]; simpl; try lia.
    destruct (JS.hexDigit a), (JS.hexDigit b); simpl; try lia.
    destruct (Byte.of_N _); simpl; try lia.
    assert (Hr : (String.length r <= n)%nat) by (simpl in Hn; lia).
    pose proof (IH r Hr). lia.
Qed.

Lemma substring_length_le (m : nat) (s : string) :
  (String.length (substring 0 m s) <= String.length s)%nat.
Proof.
  revert s. induction m as [|m IH]; intros s; destruct s; simpl; try lia.
  pose proof (IH s). lia.
Qed.

(** A key the cipher accepts has at least 64 characters. *)
Lemma validKey_length (k : string) : validKey k -> (64 <= String.length k)%nat.
Proof.
  unfold validKey. intros Hv.
  pose proof (hexDecode_length_bound (n := String.length (substring 0 64 k))
                (substring 0 64 k) (le_n _)) as H1.
  pose proof (substring_length_le 64 k). lia.
Qed.

Section Errors.

Context {C : Codecs}.

(** When the source file does not exist, [store] fails with the file-system
    error before anything is written: the state is the one it was given,
    whatever the options are. *)
Theorem store_missing_source (cfg : config) (flt : ioFault) (rnd : nat -> byte)
  (st : state) (k : string) (f : path) (o : storeOptions) :
  files st f = None ->
  store cfg flt rnd st k f o = (st, Err ENOENT).
Proof.
  intros Hf. unfold store, computeHash, storeNew. rewrite Hf.
  now destruct (opt_enableDedup o).
Qed.

(** With [encrypt] set and a non-empty key that does not decode to 32 bytes
    (any key shorter than 64 characters is one), [store] fails when it creates
    the cipher: no file is written and the index is not touched. *)
Theorem store_rejects_bad_key (cfg : config) (flt : ioFault) (rnd : nat -> byte)
  (st : state) (k : string) (f : path) (o : storeOptions) (P : buffer) (ek : string) :
  files st f = Some P ->
  opt_enableDedup o = false \/ JS.get (deduplicationMap st) (sha256 P) = None ->
  opt_encrypt o = true ->
  opt_encryptionKey o = Some ek ->
  JS.truthyStr ek = true ->
  (String.length ek < 64)%nat \/ ~ validKey ek ->
  store cfg flt rnd st k f o = (st, Err InvalidKeyLength).
Proof.
  intros HP Hd He Hk Ht Hbad.
  assert (Hinvalid : ~ validKey ek).
  { destruct Hbad as [Hshort|Hbad]; [|exact Hbad].
    intros Hv. apply validKey_length in Hv. lia. }
  clear Hbad. rename Hinvalid into Hbad.
  erewrite store_fresh; [|exact HP|exact Hd].
  unfold storeNew, encryptStep, cipherKey. rewrite HP, Hk, He, Ht. cbn [andb].
  destruct (Nat.eqb_spec (List.length (JS.hexDecode (substring 0 64 ek))) 32) as [E|_];
    [contradiction | reflexivity].
Qed.

(** [store] of a key in normal form changes no object file in the tier
    directories other than the one at its own target path, and an index entry
    that exists keeps its value; the index file is left as it was or rewritten
    with the new map.  This holds for every outcome, the failures included. *)
Theorem store_touches_only_its_target (cfg : config) (flt : ioFault) (rnd : nat -> byte)
  (st st' : state) (k : string) (f : path) (o : storeOptions)
  (res : result storeResult) :
  store cfg flt rnd st k f o = (st', res) ->
  normalKey k = true ->
  (forall d rel, normalKey rel = true ->
     TierPath d rel <> TierPath (getTierDirectory (opt_tier o)) k ->
     files st' (TierPath d rel) = files st (TierPath d rel)) /\
  (forall h loc, JS.get (deduplicationMap st) h = Some loc ->
                 JS.get (deduplicationMap st') h = Some loc) /\
  (savedIndex st' = savedIndex st \/ savedIndex st' = Some (deduplicationMap st')).
Proof.
  intros Hs _.
  assert (Hnew : forall hash,
            (forall h, hash = Some h -> JS.get (deduplicationMap st) h = None) ->
            storeNew cfg flt rnd st k f o hash = (st', res) ->
            (forall q, q <> TierPath (getTierDirectory (opt_tier o)) k ->
                       files st' q = files st q) /\
            (forall h loc, JS.get (deduplicationMap st) h = Some loc ->
                           JS.get (deduplicationMap st') h = Some loc) /\
            (savedIndex st' = savedIndex st \/
             savedIndex st' = Some (deduplicationMap st'))).
  { intros hash Hfresh Hn. unfold storeNew in Hn.
    destruct (files st f) as [P|]; [|injection Hn as <- _; (split; [now intros | split; [now intros | now left]])].
    destruct (encryptStep rnd o _) as [d2|];
      [|injection Hn as <- _; (split; [now intros | split; [now intros | now left]])].
    assert (Hidx : forall h0 h loc,
              hash = Some h0 -> JS.get (deduplicationMap st) h = Some loc ->
              JS.get (JS.set (deduplicationMap st) h0 (JS.slashed (opt_tier o) k)) h
              = Some loc).
    { intros h0 h loc Eh Hg. rewrite get_set_other; [exact Hg|].
      intros ->. rewrite (Hfresh h0 Eh) in Hg. discriminate. }
    destruct flt as [|[n|]|]; cbn [writeFile] in Hn;
      try (injection Hn as <- _; cbn [files deduplicationMap savedIndex]; split;
           [intros q Hq; now apply writeTo_other | split; [now intros | now left]]);
      try (injection Hn as <- _; (split; [now intros | split; [now intros | now left]]));
      (destruct (opt_enableDedup o && JS.truthy hash);
       injection Hn as <- _; cbn [files deduplicationMap savedIndex];
       (split; [intros q Hq; now apply writeTo_other|]);
       [split; [destruct hash as [h0|]; [intros h loc; now apply Hidx | now intros]
               | first [now left | now right]]
       | split; [now intros | now left]]). }
  assert (Hall : (forall q, q <> TierPath (getTierDirectory (opt_tier o)) k ->
                            files st' q = files st q) /\
                 (forall h loc, JS.get (deduplicationMap st) h = Some loc ->
                                JS.get (deduplicationMap st') h = Some loc) /\
                 (savedIndex st' = savedIndex st \/
                  savedIndex st' = Some (deduplicationMap st'))).
  { unfold store in Hs. destruct (opt_enableDedup o).
    - destruct (computeHash (files st) f) as [h|];
        [|injection Hs as <- _; (split; [now intros | split; [now intros | now left]])].
      destruct (JS.get (deduplicationMap st) h) as [existing|] eqn:Eh.
      + destruct (files st f); injection Hs as <- _; (split; [now intros | split; [now intros | now left]]).
      + apply (Hnew (Some h)); [|exact Hs]. now intros h' [= <-].
    - apply (Hnew None); [|exact Hs]. discriminate. }
  destruct Hall as (Hfiles & Hidx & Hsaved).
  split; [|split; assumption].
  intros d rel _ Hq. now apply Hfiles.
Qed.

End Errors.

(** *** The index as a [Map] *)

Lemma findByPath_get (m : JS.map string) (loc h : string) :
  distinctHashes m -> findByPath m loc = Some h -> JS.get m h = Some loc.
Proof.
  unfold distinctHashes. induction m as [|[h1 q1] r IH]; simpl; [discriminate|].
  intros Hnd Hf. inversion Hnd as [|? ? Hnot Hnd']; subst.
  destruct (String.eqb_spec q1 loc) as [->|Hq].
  - injection Hf as ->. now rewrite String.eqb_refl.
  - specialize (IH Hnd' Hf).
    destruct (String.eqb_spec h1 h) as [->|_]; [|exact IH].
    exfalso. apply Hnot. clear - IH. induction r as [|[h2 q2] r IHr]; simpl in *;
      [discriminate|].
    destruct (String.eqb_spec h2 h); [now left | right; now apply IHr].
Qed.

(** [delete] of a key whose base key is in normal form touches one object
    file and at most one index entry: every other object file in the tier
    directories keeps its content, every entry that names another location
    stays, and a key that no entry names leaves the index and the index file
    as they are. *)
Theorem delete_touches_only_its_object (st : state) (k t : string) :
  distinctHashes (deduplicationMap st) ->
  normalKey (baseKeyOf k) = true ->
  (forall d rel, normalKey rel = true ->
     TierPath d rel <> TierPath (getTierDirectory t) (baseKeyOf k) ->
     files (fst (delete st k t)) (TierPath d rel) = files st (TierPath d rel)) /\
  (forall h loc, JS.get (deduplicationMap st) h = Some loc -> loc <> k ->
                 JS.get (deduplicationMap (fst (delete st k t))) h = Some loc) /\
  (findByPath (deduplicationMap st) k = None ->
   deduplicationMap (fst (delete st k t)) = deduplicationMap st /\
   savedIndex (fst (delete st k t)) = savedIndex st).
Proof.
  intros Hnd _. destruct (delete_spec st k t) as (_ & _ & Hother & Hidx).
  split; [intros d rel _ Hq; now apply Hother|]. split.
  - intros h loc Hg Hne. rewrite Hidx.
    destruct (findByPath (deduplicationMap st) k) as [h0|] eqn:Ef; [|exact Hg].
    rewrite CacheManagerMore.get_delete.
    destruct (String.eqb_spec h0 h) as [->|_]; [|exact Hg].
    rewrite (@findByPath_get (deduplicationMap st) k h Hnd Ef) in Hg. congruence.
  - intros Hnone. unfold delete. now rewrite Hnone.
Qed.

Lemma exists_readLocal (st : state) (k t : string) :
  exists_ st k t = true <-> exists d, readLocal st k t = Ok d.
Proof.
  unfold exists_, readLocal. destruct (files st _) as [d|]; split.
  - intros _. now exists d.
  - reflexivity.
  - discriminate.
  - intros [d Hd]. discriminate.
Qed.

Lemma getTierDirectory_fallback (t : string) :
  t <> "hot"%string -> t <> "cold"%string -> getTierDirectory t = WarmDir.
Proof.
  intros Hh Hc. unfold getTierDirectory.
  destruct (String.eqb_spec t "hot"); [contradiction|].
  destruct (String.eqb_spec t "warm"); [reflexivity|].
  destruct (String.eqb_spec t "cold"); [contradiction | reflexivity].
Qed.

Lemma append_length (a b : string) :
  String.length (a ++ b) = (String.length a + String.length b)%nat.
Proof. induction a as [|c a IH]; simpl; [reflexivity | now rewrite IH]. Qed.

Lemma slashed_longer (a b : string) : JS.slashed a b <> b.
Proof.
  intros H. apply (f_equal String.length) in H. unfold JS.slashed in H.
  rewrite append_length in H. simpl in H. lia.
Qed.

Section Placement.

Context {C : Codecs} {L : CodecLaws C}.



(** [retrieve] and [delete] drop the first segment of any key that contains
    a slash.  So for an object stored under a logical key [a/b] in normal
    form, only the returned key [tier/a/b] leads back to it: given the logical
    key itself (as the snapshot callers pass it), [retrieve] looks for [b] and
    reports "File not found", and [delete] leaves the stored object in
    place. *)
Theorem logical_key_does_not_resolve (cfg : config) (rnd : nat -> byte) (st : state)
  (a b : string) (f : path) (o : storeOptions) (P : buffer) :
  JS.includes "/" a = false ->
  normalKey (JS.slashed a b) = true ->
  files st f = Some P ->
  JS.includes "/" (opt_tier o) = false ->
  (opt_encrypt o = true -> exists ek, opt_encryptionKey o = Some ek /\ validKey ek) ->
  opt_enableDedup o = false \/ JS.get (deduplicationMap st) (sha256 P) = None ->
  files st (TierPath (getTierDirectory (opt_tier o)) b) = None ->
  exists st' r onDisk,
    store cfg NoFault rnd st (JS.slashed a b) f o = (st', Ok (Stored r)) /\
    key r = JS.slashed (opt_tier o) (JS.slashed a b) /\
    retrieve st' (key r) (opt_tier o) (matching o) = Ok P /\
    (forall ro, retrieve st' (JS.slashed a b) (opt_tier o) ro = Err FileNotFound) /\
    readLocal st' (key r) (opt_tier o) = Ok onDisk /\
    readLocal (fst (delete st' (JS.slashed a b) (opt_tier o))) (key r) (opt_tier o)
      = Ok onDisk.
Proof.
  intros Ha _ HP Ht Hk Hd Hfree.
  destruct (store_fresh_readable cfg rnd st (JS.slashed a b) f o HP Ht Hk Hd)
    as (st' & r & onDisk & Hs & He & Hread).
  destruct (store_Stored_inv _ _ _ _ _ _ _ Hs) as (P' & d2' & _ & _ & Hfs & Hkey & _).
  assert (Hne : TierPath (getTierDirectory (opt_tier o)) b
                <> TierPath (getTierDirectory (opt_tier o)) (JS.slashed a b)).
  { intros [= Heq]. symmetry in Heq. exact (@slashed_longer a b Heq). }
  assert (Hmiss : files st' (TierPath (getTierDirectory (opt_tier o))
                               (baseKeyOf (JS.slashed a b))) = None).
  { rewrite baseKeyOf_slashed by exact Ha. rewrite Hfs, writeTo_other by exact Hne.
    exact Hfree. }
  exists st', r, onDisk.
  split; [exact Hs|]. split; [exact Hkey|].
  split; [eapply retrieve_stages; eassumption|].
  split; [intros ro; unfold retrieve; now rewrite (readLocal_missing _ _ _ Hmiss)|].
  split; [exact Hread|].
  destruct (delete_spec st' (JS.slashed a b) (opt_tier o)) as (_ & _ & Hother & _).
  apply readLocal_Ok in Hread. apply readLocal_Ok. rewrite Hother; [exact Hread|].
  rewrite Hkey, !baseKeyOf_slashed by assumption. congruence.
Qed.

End Placement.

(** *** Moves *)

Lemma set_get_id (W : Type) (m : JS.map W) (k : string) (v : W) :
  JS.get m k = Some v -> JS.set m k v = m.
Proof.
  induction m as [|[k1 v1] r IH]; simpl; [discriminate|].
  destruct (String.eqb_spec k1 k) as [->|_].
  - now intros [= ->].
  - intros H. now rewrite (IH H).
Qed.

Lemma set_set (W : Type) (m : JS.map W) (k : string) (v w : W) :
  JS.set (JS.set m k v) k w = JS.set m k w.
Proof.
  induction m as [|[k1 v1] r IH]; simpl.
  - now rewrite String.eqb_refl.
  - destruct (String.eqb k1 k) eqn:E; simpl.
    + now rewrite String.eqb_refl.
    + now rewrite E, IH.
Qed.

Lemma findByPath_set_retarget (m : JS.map string) (old new h : string) :
  findByPath m old = Some h -> findByPath m new = None ->
  findByPath (JS.set m h new) new = Some h.
Proof.
  induction m as [|[h1 q1] r IH]; simpl; [discriminate|].
  intros Hold Hnew.
  destruct (String.eqb_spec q1 new) as [->|Hq]; [discriminate|].
  destruct (String.eqb_spec h1 h) as [->|Hh]; simpl.
  - now rewrite String.eqb_refl.
  - destruct (String.eqb_spec q1 new); [contradiction|].
    destruct (String.eqb_spec q1 old); [congruence | now apply IH].
Qed.

(** The index after [moveTier]: the rename has no part in it. *)
Lemma moveTier_index_effect (st : state) (k tA tB : string) :
  let after := fst (moveTier st k tA tB) in
  match findByPath (deduplicationMap st) (JS.slashed tA (baseKeyOf k)) with
  | Some h =>
      deduplicationMap after
        = JS.set (deduplicationMap st) h (JS.slashed tB (baseKeyOf k)) /\
      savedIndex after = Some (deduplicationMap after)
  | None =>
      deduplicationMap after = deduplicationMap st /\ savedIndex after = savedIndex st
  end.
Proof.
  cbv zeta. unfold moveTier. cbn [fst].
  assert (Hidx : deduplicationMap (moveTierRename st k tA tB) = deduplicationMap st
                 /\ savedIndex (moveTierRename st k tA tB) = savedIndex st).
  { unfold moveTierRename. now destruct (rename _ _ _). }
  destruct Hidx as [Hm Hsv]. unfold moveTierIndex. rewrite Hm.
  destruct (findByPath (deduplicationMap st) _); cbn [deduplicationMap savedIndex];
    [split; reflexivity | now split].
Qed.

(** [moveTier] rewrites the index whether or not a file is moved (a failed
    rename is only logged): it returns the new storage key, the first entry
    that named the old storage key now names the new one and the index file is
    rewritten; every entry that named another location is kept, and when no
    entry named the old key the index and its file are left alone. *)
Theorem moveTier_retargets_index (st : state) (k tA tB : string) :
  distinctHashes (deduplicationMap st) ->
  let old := JS.slashed tA (baseKeyOf k) in
  let new := JS.slashed tB (baseKeyOf k) in
  let after := fst (moveTier st k tA tB) in
  snd (moveTier st k tA tB) = new /\
  (forall h, findByPath (deduplicationMap st) old = Some h ->
             JS.get (deduplicationMap after) h = Some new /\
             savedIndex after = Some (deduplicationMap after)) /\
  (findByPath (deduplicationMap st) old = None ->
   deduplicationMap after = deduplicationMap st /\ savedIndex after = savedIndex st) /\
  (forall h loc, JS.get (deduplicationMap st) h = Some loc -> loc <> old ->
                 JS.get (deduplicationMap after) h = Some loc).
Proof.
  intros Hnd. cbv zeta. pose proof (moveTier_index_effect st k tA tB) as Heff.
  cbv zeta in Heff. split; [reflexivity|].
  destruct (findByPath (deduplicationMap st) (JS.slashed tA (baseKeyOf k)))
    as [h0|] eqn:Ef.
  - destruct Heff as [Hm Hsv]. split; [|split; [discriminate|]].
    + intros h [= <-]. split; [|exact Hsv]. rewrite Hm. apply JSFacts.get_set_same.
    + intros h loc Hg Hne. rewrite Hm.
      destruct (String.eqb_spec h h0) as [->|Hh].
      * rewrite (@findByPath_get _ _ _ Hnd Ef) in Hg. congruence.
      * rewrite get_set_other by exact Hh. exact Hg.
  - destruct Heff as [Hm Hsv]. split; [discriminate|]. split; [now split|].
    intros h loc Hg _. now rewrite Hm.
Qed.

(** Moving an object to another tier and back, with the key each move
    returns, puts the index back as it was, when no entry named the
    destination key beforehand. *)
Theorem moveTier_there_and_back (st : state) (k tA tB : string) :
  JS.includes "/" tB = false ->
  distinctHashes (deduplicationMap st) ->
  findByPath (deduplicationMap st) (JS.slashed tB (baseKeyOf k)) = None ->
  let there := moveTier st k tA tB in
  let back := moveTier (fst there) (snd there) tB tA in
  snd there = JS.slashed tB (baseKeyOf k) /\
  snd back = JS.slashed tA (baseKeyOf k) /\
  deduplicationMap (fst back) = deduplicationMap st.
Proof.
  intros HtB Hnd Hfree. cbv zeta.
  set (base := baseKeyOf k) in *.
  assert (Hkey : snd (moveTier st k tA tB) = JS.slashed tB base) by reflexivity.
  assert (Hbase : baseKeyOf (JS.slashed tB base) = base)
    by (apply baseKeyOf_slashed; exact HtB).
  rewrite Hkey.
  pose proof (moveTier_index_effect st k tA tB) as H1.
  pose proof (moveTier_index_effect (fst (moveTier st k tA tB)) (JS.slashed tB base) tB tA)
    as H2.
  cbv zeta in H1, H2. rewrite Hbase in H2. fold base in H1.
  split; [reflexivity|]. split; [unfold moveTier; cbn [snd]; now rewrite Hbase|].
  destruct (findByPath (deduplicationMap st) (JS.slashed tA base)) as [h|] eqn:Ef.
  - destruct H1 as [H1 _]. rewrite H1 in H2.
    rewrite (@findByPath_set_retarget _ _ _ _ Ef Hfree) in H2.
    destruct H2 as [H2 _]. rewrite H2, set_set.
    apply set_get_id. now apply findByPath_get.
  - destruct H1 as [H1 _]. rewrite H1, Hfree in H2. now destruct H2.
Qed.

Section FollowTheMove.

Context {C : Codecs} {L : CodecLaws C}.


End FollowTheMove.

(** *** Runs *)

Section Runs.

Local Existing Instance Framed.codecs.
Local Open Scope string_scope.

Lemma store_missing_source_witness :
  store Framed.cfg NoFault Framed.entropy Framed.disk0 "A" (FilePath "/tmp/none")
        Framed.withDedup
  = (Framed.disk0, Err ENOENT).
Proof.
  apply (@store_missing_source Framed.codecs Framed.cfg NoFault Framed.entropy
           Framed.disk0 "A" (FilePath "/tmp/none") Framed.withDedup).
  reflexivity.
Defined.

Lemma store_rejects_bad_key_witness :
  store Framed.cfg NoFault Framed.entropy Framed.disk0 "A" Framed.src MoreSamples.shortKey
  = (Framed.disk0, Err InvalidKeyLength).
Proof.
  apply (@store_rejects_bad_key Framed.codecs Framed.cfg NoFault Framed.entropy
           Framed.disk0 "A" Framed.src MoreSamples.shortKey Framed.blob "secret").
  - reflexivity.
  - right. reflexivity.
  - reflexivity.
  - reflexivity.
  - reflexivity.
  - left. simpl. lia.
Defined.

Lemma store_touches_only_its_target_witness :
  let out := store Framed.cfg NoFault Framed.entropy Framed.afterA "B2" Framed.src
                   Framed.plain in
  normalKey "B2" = true /\
  (forall d rel, normalKey rel = true ->
     TierPath d rel <> TierPath (getTierDirectory (opt_tier Framed.plain)) "B2" ->
     files (fst out) (TierPath d rel) = files Framed.afterA (TierPath d rel)) /\
  (forall h loc, JS.get (deduplicationMap Framed.afterA) h = Some loc ->
                 JS.get (deduplicationMap (fst out)) h = Some loc) /\
  (savedIndex (fst out) = savedIndex Framed.afterA \/
   savedIndex (fst out) = Some (deduplicationMap (fst out))).
Proof.
  split; [reflexivity|].
  apply (@store_touches_only_its_target Framed.codecs Framed.cfg NoFault Framed.entropy
           Framed.afterA
           (fst (store Framed.cfg NoFault Framed.entropy Framed.afterA "B2" Framed.src
                       Framed.plain))
           "B2" Framed.src Framed.plain
           (snd (store Framed.cfg NoFault Framed.entropy Framed.afterA "B2" Framed.src
                       Framed.plain))).
  - apply surjective_pairing.
  - reflexivity.
Defined.

Lemma delete_touches_only_its_object_witness :
  normalKey (baseKeyOf "hot/other") = true /\
  (forall d rel, normalKey rel = true ->
     TierPath d rel <> TierPath (getTierDirectory "hot") (baseKeyOf "hot/other") ->
     files (fst (delete Framed.afterA "hot/other" "hot")) (TierPath d rel)
     = files Framed.afterA (TierPath d rel)) /\
  (forall h loc, JS.get (deduplicationMap Framed.afterA) h = Some loc ->
                 loc <> "hot/other"%string ->
                 JS.get (deduplicationMap (fst (delete Framed.afterA "hot/other" "hot"))) h
                 = Some loc) /\
  (findByPath (deduplicationMap Framed.afterA) "hot/other" = None ->
   deduplicationMap (fst (delete Framed.afterA "hot/other" "hot"))
   = deduplicationMap Framed.afterA /\
   savedIndex (fst (delete Framed.afterA "hot/other" "hot")) = savedIndex Framed.afterA).
Proof.
  split; [reflexivity|].
  apply (@delete_touches_only_its_object Framed.afterA "hot/other" "hot").
  - repeat constructor. simpl. tauto.
  - reflexivity.
Defined.



Lemma logical_key_does_not_resolve_witness :
  normalKey (JS.slashed "snapshots" "p1/s1.zip") = true /\
  exists st' r onDisk,
    store Framed.cfg NoFault Framed.entropy Framed.disk0
          (JS.slashed "snapshots" "p1/s1.zip") Framed.src Framed.withDedup
      = (st', Ok (Stored r)) /\
    key r = JS.slashed (opt_tier Framed.withDedup) (JS.slashed "snapshots" "p1/s1.zip") /\
    retrieve st' (key r) (opt_tier Framed.withDedup) (matching Framed.withDedup)
      = Ok Framed.blob /\
    (forall ro, retrieve st' (JS.slashed "snapshots" "p1/s1.zip")
                         (opt_tier Framed.withDedup) ro = Err FileNotFound) /\
    readLocal st' (key r) (opt_tier Framed.withDedup) = Ok onDisk /\
    readLocal (fst (delete st' (JS.slashed "snapshots" "p1/s1.zip")
                           (opt_tier Framed.withDedup)))
              (key r) (opt_tier Framed.withDedup) = Ok onDisk.
Proof.
  split; [reflexivity|].
  apply (@logical_key_does_not_resolve Framed.codecs framed_laws Framed.cfg
           Framed.entropy Framed.disk0 "snapshots" "p1/s1.zip" Framed.src
           Framed.withDedup Framed.blob).
  - reflexivity.
  - reflexivity.
  - reflexivity.
  - reflexivity.
  - intros H. discriminate H.
  - right. reflexivity.
  - reflexivity.
Defined.

Lemma moveTier_retargets_index_witness :
  distinctHashes (deduplicationMap MoreSamples.dangling) /\
  let old := JS.slashed "hot" (baseKeyOf "hot/A") in
  let new := JS.slashed "cold" (baseKeyOf "hot/A") in
  let after := fst (moveTier MoreSamples.dangling "hot/A" "hot" "cold") in
  snd (moveTier MoreSamples.dangling "hot/A" "hot" "cold") = new /\
  (forall h, findByPath (deduplicationMap MoreSamples.dangling) old = Some h ->
             JS.get (deduplicationMap after) h = Some new /\
             savedIndex after = Some (deduplicationMap after)) /\
  (findByPath (deduplicationMap MoreSamples.dangling) old = None ->
   deduplicationMap after = deduplicationMap MoreSamples.dangling /\
   savedIndex after = savedIndex MoreSamples.dangling) /\
  (forall h loc, JS.get (deduplicationMap MoreSamples.dangling) h = Some loc ->
                 loc <> old ->
                 JS.get (deduplicationMap after) h = Some loc).
Proof.
  assert (H : distinctHashes (deduplicationMap MoreSamples.dangling)).
  { repeat constructor. simpl. tauto. }
  split; [exact H|].
  exact (@moveTier_retargets_index MoreSamples.dangling "hot/A" "hot" "cold" H).
Defined.

Lemma moveTier_there_and_back_witness :
  let there := moveTier Framed.hotA "hot/A" "hot" "cold" in
  let back := moveTier (fst there) (snd there) "cold" "hot" in
  snd there = JS.slashed "cold" (baseKeyOf "hot/A") /\
  snd back = JS.slashed "hot" (baseKeyOf "hot/A") /\
  deduplicationMap (fst back) = deduplicationMap Framed.hotA.
Proof.
  apply (@moveTier_there_and_back Framed.hotA "hot/A" "hot" "cold").
  - reflexivity.
  - repeat constructor. simpl. tauto.
  - reflexivity.
Defined.


End Runs.

End ObjectStorageMore.

(** ** CacheManager: the memory layer mirrors the table *)

Module CacheMirror.

Import CacheManager CacheManagerFacts CacheManagerMore.

Local Open Scope Z_scope.

Lemma get_In (W : Type) (m : JS.map W) (k : string) (w : W) :
  JS.get m k = Some w -> In (k, w) m.
Proof.
  induction m as [|[k1 w1] r IH]; simpl; [discriminate|].
  destruct (String.eqb_spec k1 k) as [->|Hne]; intros H.
  - injection H as ->. now left.
  - right. exact (IH H).
Qed.

(** A filter that decides by the key keeps or drops a key's binding whole. *)
Lemma get_filter_some (W : Type) (f : string * W -> bool) (m : JS.map W)
  (k : string) (w : W) :
  (forall k0 w1 w2, f (k0, w1) = f (k0, w2)) ->
  JS.get (filter f m) k = Some w ->
  JS.get m k = Some w /\ f (k, w) = true.
Proof.
  intros Hkey. induction m as [|[k1 w1] r IH]; simpl; [discriminate|].
  destruct (f (k1, w1)) eqn:Hf; simpl.
  - destruct (String.eqb_spec k1 k) as [->|Hne]; intros H.
    + injection H as <-. split; [reflexivity | exact Hf].
    + exact (IH H).
  - intros H. destruct (IH H) as [Hg Hfk].
    destruct (String.eqb_spec k1 k) as [->|Hne]; [|split; assumption].
    rewrite (Hkey k w1 w) in Hf. congruence.
Qed.

Lemma get_filter_keep (W : Type) (f : string * W -> bool) (m : JS.map W)
  (k : string) (w : W) :
  JS.get m k = Some w -> f (k, w) = true -> JS.get (filter f m) k = Some w.
Proof.
  induction m as [|[k1 w1] r IH]; simpl; [discriminate|].
  destruct (String.eqb_spec k1 k) as [->|Hne]; intros H Hf.
  - injection H as ->. rewrite Hf. simpl. now rewrite String.eqb_refl.
  - destruct (f (k1, w1)); simpl.
    + destruct (String.eqb_spec k1 k); [congruence | exact (IH H Hf)].
    + exact (IH H Hf).
Qed.

Section Mirror.

Variable V : Type.
Variable byteLength : V -> Z.

Local Abbreviation entries := (JS.map (memEntry V)).

Lemma incrementHitCount_other (now : Z) (table : JS.map (row V)) (k k0 : string) :
  k0 <> k -> JS.get (incrementHitCount now table k) k0 = JS.get table k0.
Proof.
  intros H. unfold incrementHitCount.
  destruct (JS.get table k); [|reflexivity].
  apply ObjectStorageMore.get_set_other. exact H.
Qed.

(** Counting a hit changes neither the value nor the expiry time of a row. *)
Lemma incrementHitCount_row (now : Z) (table : JS.map (row V)) (k k0 : string)
  (r : row V) :
  JS.get table k0 = Some r ->
  exists r', JS.get (incrementHitCount now table k) k0 = Some r' /\
             row_value r' = row_value r /\ row_expiresAt r' = row_expiresAt r.
Proof.
  intros H. destruct (String.eqb_spec k0 k) as [->|Hne].
  - pose proof (incrementHitCount_get now table k) as Hi. rewrite H in Hi. exact Hi.
  - exists r. rewrite incrementHitCount_other by exact Hne. auto.
Qed.

(** The answer of the table part of [get] depends only on the row of the key. *)
Lemma getFromDb_same_row (cfg : config) (now : Z) (st st' : state V)
  (m m' : entries) (k : string) :
  JS.get (db st') k = JS.get (db st) k ->
  snd (getFromDb cfg now st' m' k) = snd (getFromDb cfg now st m k).
Proof.
  unfold getFromDb. intros ->.
  destruct (JS.get (db st) k) as [entry|]; [|reflexivity].
  destruct (match row_expiresAt entry with Some t => t >? now | None => true end);
    reflexivity.
Qed.

Lemma set_mirrored (cfg : config) (now : Z) (st : state V) (k : string) (v : V)
  (ttlMs : option Z) :
  mirrored st -> mirrored (set byteLength cfg now st k v ttlMs).
Proof.
  intros Hm k0 e He. unfold CacheManager.set in *. cbn [memoryCache db] in *.
  unfold evictIfNeeded in *.
  match type of He with
  | context [evictLoop ?f cfg ?s] =>
      rewrite (evictLoop_db cfg f s);
      destruct (evictLoop_get cfg f s k0) as [Hn|Hs]; [congruence|];
      rewrite Hs in He
  end.
  cbn [memoryCache db] in *. unfold upsert.
  destruct (String.eqb_spec k0 k) as [->|Hne].
  - rewrite JSFacts.get_set_same in He. injection He as <-.
    rewrite JSFacts.get_set_same. eexists. split; [reflexivity|].
    cbn. split; [reflexivity | now right].
  - rewrite ObjectStorageMore.get_set_other in He by exact Hne.
    rewrite ObjectStorageMore.get_set_other by exact Hne.
    exact (Hm k0 e He).
Qed.

Lemma getFromDb_mirrored (cfg : config) (now : Z) (st : state V) (m : entries)
  (k : string) :
  0 <= now ->
  JS.get m k = None ->
  (forall k0 e, k0 <> k -> JS.get m k0 = Some e -> JS.get (memoryCache st) k0 = Some e) ->
  mirrored st -> mirrored (fst (getFromDb cfg now st m k)).
Proof.
  intros Hnow Hk Hsub Hm k0 e He. unfold getFromDb in *.
  destruct (JS.get (db st) k) as [entry|] eqn:Hrow.
  - destruct (match row_expiresAt entry with Some t => t >? now | None => true end)
      eqn:Hlive; cbn [fst memoryCache db withHit withMiss] in *.
    + destruct (String.eqb_spec k0 k) as [->|Hne].
      * rewrite JSFacts.get_set_same in He. injection He as <-.
        destruct (@incrementHitCount_row now _ k _ _ Hrow) as (r' & Hr' & Hv & Hx).
        exists r'. split; [exact Hr'|]. split; [exact Hv|].
        rewrite Hx. cbn [expiresAt].
        destruct (row_expiresAt entry) as [t|]; [right | now left].
        unfold JS.orDefault. destruct (Z.eqb_spec t 0); [lia | reflexivity].
      * rewrite ObjectStorageMore.get_set_other in He by exact Hne.
        destruct (Hm k0 e (Hsub _ _ Hne He)) as (r & Hr & Hv & Hx).
        destruct (@incrementHitCount_row now _ k _ _ Hr) as (r' & Hr' & Hv' & Hx').
        exists r'. split; [exact Hr'|]. rewrite Hv', Hx'. split; assumption.
    + destruct (String.eqb_spec k0 k) as [->|Hne]; [congruence|].
      rewrite get_delete. destruct (String.eqb_spec k k0); [congruence|].
      exact (Hm k0 e (Hsub _ _ Hne He)).
  - cbn [fst memoryCache db withHit withMiss] in *.
    destruct (String.eqb_spec k0 k) as [->|Hne]; [congruence|].
    exact (Hm k0 e (Hsub _ _ Hne He)).
Qed.

Lemma get_mirrored (cfg : config) (now : Z) (st : state V) (k : string) :
  0 <= now -> mirrored st -> mirrored (fst (get cfg now st k)).
Proof.
  intros Hnow Hm. unfold get.
  destruct (JS.get (memoryCache st) k) as [me|] eqn:Hmem.
  - destruct (expiresAt me >? now).
    + intros k0 e He. cbn [fst memoryCache db withHit] in *.
      destruct (Hm k0 e He) as (r & Hr & Hv & Hx).
      destruct (@incrementHitCount_row now _ k _ _ Hr) as (r' & Hr' & Hv' & Hx').
      exists r'. split; [exact Hr'|]. rewrite Hv', Hx'. split; assumption.
    + apply getFromDb_mirrored; [exact Hnow | | | exact Hm].
      * rewrite get_delete. now rewrite String.eqb_refl.
      * intros k0 e Hne He. rewrite get_delete in He.
        destruct (String.eqb_spec k k0); [congruence | exact He].
  - apply getFromDb_mirrored; [exact Hnow | exact Hmem | auto | exact Hm].
Qed.

Lemma delete_mirrored (st : state V) (k : string) :
  mirrored st -> mirrored (delete st k).
Proof.
  intros Hm k0 e He. unfold delete in *. cbn [memoryCache db] in *.
  rewrite get_delete in He. rewrite get_delete.
  destruct (String.eqb k k0); [discriminate | exact (Hm k0 e He)].
Qed.

Lemma cleanupExpired_mirrored (now : Z) (st : state V) :
  mirrored st -> mirrored (cleanupExpired now st).
Proof.
  intros Hm k e He. unfold cleanupExpired in *.
  pose proof (cleanup_fold_filter now (memoryCache st) (memoryCache st)
                (totalMemoryBytes (stat st))) as Hfold.
  destruct (fold_left _ _ _) as [m total]. cbn [memoryCache db fst] in *. subst m.
  apply get_filter_some in He; [|reflexivity].
  destruct He as [Hg Hkeep].
  assert (Hlive : expired now (k, e) = false).
  { destruct (expired now (k, e)) eqn:E; [|reflexivity].
    apply negb_true_iff in Hkeep.
    assert (Hex : existsb (fun kv' => String.eqb (fst kv') k && expired now kv')
                    (memoryCache st) = true).
    { apply existsb_exists. exists (k, e). split; [exact (get_In _ _ Hg)|].
      cbn [fst]. now rewrite String.eqb_refl, E. }
    cbn [fst] in Hkeep. congruence. }
  destruct (Hm k e Hg) as (r & Hr & Hv & Hx).
  exists r. split; [|split; assumption].
  apply get_filter_keep; [exact Hr|]. cbn [snd].
  unfold expired in Hlive. cbn [snd] in Hlive.
  destruct Hx as [-> | ->]; [reflexivity | now rewrite Hlive].
Qed.

Lemma step_mirrored (cfg : config) (st : state V) (c : Z * op V) :
  0 <= fst c -> mirrored st -> mirrored (step byteLength cfg st c).
Proof.
  intros Hnow Hm. unfold step. destruct (snd c) as [k v ttl|k|k| |].
  - now apply set_mirrored.
  - now apply get_mirrored.
  - now apply delete_mirrored.
  - intros k e He. discriminate He.
  - now apply cleanupExpired_mirrored.
Qed.

Lemma run_mirrored (cfg : config) (calls : list (Z * op V)) (st : state V) :
  Forall (fun c => 0 <= fst c) calls ->
  mirrored st -> mirrored (run byteLength cfg st calls).
Proof.
  unfold run. revert st. induction calls as [|c r IH]; intros st Hall Hm; [exact Hm|].
  inversion Hall as [|? ? Hc Hr]; subst. simpl.
  apply IH; [exact Hr|]. now apply step_mirrored.
Qed.

(** With a mirrored state, [set] of one key leaves the answer for every other
    key as it was, also when it evicts that key from memory. *)
Lemma set_other_answer (cfg : config) (now now' : Z) (st : state V) (k k' : string)
  (v : V) (ttlMs : option Z) :
  mirrored st -> k <> k' ->
  snd (get cfg now' (set byteLength cfg now st k' v ttlMs) k) = snd (get cfg now' st k).
Proof.
  intros Hm Hne.
  set (st' := set byteLength cfg now st k' v ttlMs).
  assert (Hdb : JS.get (db st') k = JS.get (db st) k).
  { unfold st', CacheManager.set, evictIfNeeded, upsert. cbn [db].
    rewrite evictLoop_db. cbn [db].
    apply ObjectStorageMore.get_set_other. exact Hne. }
  assert (Hmem : JS.get (memoryCache st') k = None \/
                 JS.get (memoryCache st') k = JS.get (memoryCache st) k).
  { unfold st', CacheManager.set, evictIfNeeded. cbn [memoryCache].
    match goal with
    | |- context [evictLoop ?f cfg ?s] =>
        destruct (evictLoop_get cfg f s k) as [Hn|Hs]; [now left | right; rewrite Hs]
    end.
    cbn [memoryCache]. apply ObjectStorageMore.get_set_other. exact Hne. }
  unfold get at 2. destruct (JS.get (memoryCache st) k) as [e|] eqn:He.
  - destruct (Hm k e He) as (r & Hr & Hv & Hx).
    destruct (expiresAt e >? now') eqn:Hlive.
    + unfold get. destruct Hmem as [-> | ->]; [|now rewrite Hlive].
      unfold getFromDb. rewrite Hdb, Hr.
      destruct Hx as [-> | ->]; [|rewrite Hlive]; cbn [snd]; now rewrite Hv.
    + unfold get. destruct Hmem as [-> | ->]; [|rewrite Hlive];
        now apply getFromDb_same_row.
  - unfold get. destruct Hmem as [-> | ->]; now apply getFromDb_same_row.
Qed.



End Mirror.

(** *** Runs *)

Lemma sample_calls_insertable :
  Forall (insertableCall Samples.sized Samples.oneMB)
    [(0, Set_ "late" 900000 (Some 900)); (1, Set_ "soon" 700000 (Some 100));
     (2, Get _ "late"); (150, CleanupExpired _)].
Proof.
  repeat constructor; unfold insertableCall, insertable, lastStoredDate, maxInt4,
    Samples.sized; cbn; try lia; try discriminate; exact I.
Qed.



End CacheMirror.

(** ** StorageManager: quota counters, cached profiles and the text cipher *)

Module StorageManagerMore.

Import StorageManager StorageManagerFacts.

Local Open Scope Z_scope.

Lemma selectQuotas_bump_other (table : list quota) (t t' : string) (delta : Z) :
  t' <> t ->
  selectQuotas (List.map (bumpQuota t delta) table) t' = selectQuotas table t'.
Proof.
  intros Hne. unfold selectQuotas. induction table as [|q r IH]; simpl; [reflexivity|].
  rewrite bumpQuota_type, IH.
  destruct (String.eqb_spec (quotaType q) t') as [Ht'|_]; [|reflexivity].
  f_equal. unfold bumpQuota.
  destruct (String.eqb_spec (quotaType q) t); [congruence | reflexivity].
Qed.

(** After an [updateQuotaUsage] that the database accepts, the row of the
    type holds the adjusted value, and its stored [isExceeded] flag says
    exactly what [checkQuota] decides next: the check throws if and only if
    the flag is true.  (A rejected update changes no row.) *)
Theorem updateQuotaUsage_flag_agrees (st st' : state) (t : string) (delta : Z)
  (q : quota) (rest : list quota) (c : Z) :
  tryUpdateQuotaUsage st t delta = Ok st' ->
  selectQuotas (storageQuotas st) t = q :: rest ->
  currentValue q = Some c ->
  int4 (c + delta) = true /\
  exists q' rest',
    selectQuotas (storageQuotas st') t = q' :: rest' /\
    limitValue q' = limitValue q /\
    currentValue q' = Some (c + delta) /\
    isExceeded q' = Some (c + delta >=? limitValue q) /\
    (checkQuota st' t = Err QuotaExceeded <-> isExceeded q' = Some true).
Proof.
  intros Htry Hsel Hc.
  assert (Ht : String.eqb (quotaType q) t = true).
  { assert (Hin : In q (selectQuotas (storageQuotas st) t)) by (rewrite Hsel; now left).
    now apply filter_In in Hin as [_ Hin]. }
  unfold tryUpdateQuotaUsage in Htry.
  destruct (updateAccepted (storageQuotas st) t delta) eqn:Hacc; [|discriminate].
  injection Htry as <-. split.
  { unfold updateAccepted in Hacc. apply andb_prop in Hacc as [_ Hall].
    rewrite forallb_forall in Hall.
    assert (Hin : In q (storageQuotas st)).
    { assert (Hin : In q (selectQuotas (storageQuotas st) t)) by (rewrite Hsel; now left).
      now apply filter_In in Hin as [Hin _]. }
    specialize (Hall q Hin). now rewrite Ht, Hc in Hall. }
  exists (bumpQuota t delta q), (List.map (bumpQuota t delta) rest).
  assert (Hsel' : selectQuotas (storageQuotas (updateQuotaUsage st t delta)) t
                  = bumpQuota t delta q :: List.map (bumpQuota t delta) rest).
  { unfold updateQuotaUsage. cbn [storageQuotas]. now rewrite selectQuotas_bump, Hsel. }
  split; [exact Hsel'|].
  unfold checkQuota. rewrite Hsel'. unfold bumpQuota. rewrite Ht. cbn. rewrite Hc. cbn.
  repeat split.
  - destruct (c + delta >=? limitValue q); [reflexivity | discriminate].
  - destruct (c + delta >=? limitValue q); [reflexivity | discriminate].
Qed.

(** An adjustment followed by the opposite adjustment, both accepted by the
    database, restores every counter (limits and types are never changed). *)
Theorem updateQuotaUsage_undone (st st1 st2 : state) (t : string) (delta : Z) :
  tryUpdateQuotaUsage st t delta = Ok st1 ->
  tryUpdateQuotaUsage st1 t (- delta) = Ok st2 ->
  List.map currentValue (storageQuotas st2) = List.map currentValue (storageQuotas st) /\
  List.map limitValue (storageQuotas st2) = List.map limitValue (storageQuotas st) /\
  List.map quotaType (storageQuotas st2) = List.map quotaType (storageQuotas st) /\
  profiles st2 = profiles st.
Proof.
  unfold tryUpdateQuotaUsage. intros H1 H2.
  destruct (updateAccepted (storageQuotas st) t delta); [|discriminate].
  injection H1 as <-.
  destruct (updateAccepted _ t (- delta)); [|discriminate].
  injection H2 as <-.
  unfold updateQuotaUsage. cbn [storageQuotas profiles].
  rewrite !map_map. repeat split; apply map_ext; intros q; unfold bumpQuota;
    destruct (String.eqb (quotaType q) t) eqn:E; cbn; rewrite ?E; cbn; try reflexivity.
  destruct (currentValue q); cbn; [f_equal; lia | reflexivity].
Qed.

(** An update that the database rejects: the counter is at the top of its
    column. *)
Lemma updateQuotaUsage_out_of_range :
  tryUpdateQuotaUsage
    {| profiles := [];
       storageQuotas :=
         [ {| quota_id := "quota_total_size"; quotaType := "total_size";
              limitValue := 2147483647; currentValue := Some 2147483647;
              isExceeded := Some true |} ];
       cacheManager := CacheManager.initial [];
       metrics := {| operations := 0; totalTime := 0 |} |}
    "total_size" 1 = Err DatabaseError.
Proof. reflexivity. Qed.

Section Independence.

Variable byteLength : cached -> Z.
Variable cacheConfig : CacheManager.config.

(** The quota types are independent: adjusting one type, or creating a
    profile, leaves the check of every other type as it was. *)
Theorem quota_types_independent (st : state) (t t' : string) (delta : Z) (r : request) :
  t' <> t ->
  checkQuota (updateQuotaUsage st t delta) t' = checkQuota st t' /\
  (t' <> "profile_count"%string ->
   checkQuota (fst (createProfile byteLength cacheConfig st r)) t' = checkQuota st t').
Proof.
  intros Hne. split.
  - unfold checkQuota, updateQuotaUsage. cbn [storageQuotas].
    now rewrite selectQuotas_bump_other.
  - intros Hpc. unfold createProfile.
    destruct (checkQuota st "profile_count"); [|reflexivity].
    unfold insertProfile. destruct (existsb _ _); [reflexivity|].
    unfold tryUpdateQuotaUsage. destruct (updateAccepted _ _ _); [|reflexivity].
    cbn [fst]. unfold checkQuota, trackPerformance, cacheSet, updateQuotaUsage.
    cbn [storageQuotas]. now rewrite selectQuotas_bump_other.
Qed.

(** A profile that [createProfile] returned is in the cache under
    [profile:<id>]: a cache lookup before the default time-to-live has passed
    gives back that profile. *)
Theorem createProfile_caches_profile (st st' : state) (r : request) (p : profile)
  (now' : Z) :
  createProfile byteLength cacheConfig st r = (st', Ok p) ->
  now' < now r + CacheManager.defaultTTL cacheConfig ->
  p = profileOf r /\
  getProfileCached cacheConfig st' now' (uuid r) = Some (CachedProfile p).
Proof.
  intros Hrun Hlive. unfold createProfile in Hrun.
  destruct (checkQuota st "profile_count"); [|discriminate].
  unfold insertProfile in Hrun. destruct (existsb _ _); [discriminate|].
  unfold tryUpdateQuotaUsage in Hrun. destruct (updateAccepted _ _ _); [|discriminate].
  injection Hrun as <- <-. split; [reflexivity|].
  unfold getProfileCached. cbn [cacheManager trackPerformance cacheSet].
  apply CacheManagerMore.set_get_live. exact Hlive.
Qed.

Lemma list_key_differs (i : string) : "profiles:list"%string <> ("profile:" ++ i)%string.
Proof. cbn. intros H. discriminate H. Qed.

(** [createProfile] does not invalidate the cached profile list: the new
    profile is in the table, while the lookup of [listProfiles] answers as it
    did before the call. *)
Theorem createProfile_keeps_cached_list (st st' : state) (r : request) (p : profile)
  (t : Z) :
  createProfile byteLength cacheConfig st r = (st', Ok p) ->
  CacheManager.mirrored (cacheManager st) ->
  profiles st' = profiles st ++ [p] /\
  listProfilesCached cacheConfig st' t = listProfilesCached cacheConfig st t.
Proof.
  intros Hrun Hm. unfold createProfile in Hrun.
  destruct (checkQuota st "profile_count"); [|discriminate].
  unfold insertProfile in Hrun. destruct (existsb _ _); [discriminate|].
  unfold tryUpdateQuotaUsage in Hrun. destruct (updateAccepted _ _ _); [|discriminate].
  injection Hrun as <- <-. split; [reflexivity|].
  unfold listProfilesCached. cbn [cacheManager trackPerformance cacheSet].
  apply CacheMirror.set_other_answer; [exact Hm | apply list_key_differs].
Qed.

End Independence.

(** *** Runs *)

Lemma updateQuotaUsage_flag_agrees_witness :
  let q := {| quota_id := "quota_profile_count"; quotaType := "profile_count";
              limitValue := 2; currentValue := Some 0; isExceeded := Some false |} in
  let st' := updateQuotaUsage Samples.limitTwo "profile_count" 2 in
  tryUpdateQuotaUsage Samples.limitTwo "profile_count" 2 = Ok st' /\
  selectQuotas (storageQuotas Samples.limitTwo) "profile_count" = [q] /\
  currentValue q = Some 0 /\
  int4 (0 + 2) = true /\
  exists q' rest',
    selectQuotas (storageQuotas st') "profile_count" = q' :: rest' /\
    limitValue q' = limitValue q /\
    currentValue q' = Some (0 + 2) /\
    isExceeded q' = Some (0 + 2 >=? limitValue q) /\
    (checkQuota st' "profile_count" = Err QuotaExceeded <-> isExceeded q' = Some true).
Proof.
  cbv zeta. split; [reflexivity|]. split; [reflexivity|]. split; [reflexivity|].
  apply (@updateQuotaUsage_flag_agrees Samples.limitTwo
           (updateQuotaUsage Samples.limitTwo "profile_count" 2) "profile_count" 2 _ [] 0);
    reflexivity.
Defined.

Lemma updateQuotaUsage_undone_witness :
  let st1 := updateQuotaUsage Samples.limitTwo "profile_count" 2 in
  let st2 := updateQuotaUsage st1 "profile_count" (- 2) in
  tryUpdateQuotaUsage Samples.limitTwo "profile_count" 2 = Ok st1 /\
  tryUpdateQuotaUsage st1 "profile_count" (- 2) = Ok st2 /\
  List.map currentValue (storageQuotas st2)
    = List.map currentValue (storageQuotas Samples.limitTwo) /\
  List.map limitValue (storageQuotas st2)
    = List.map limitValue (storageQuotas Samples.limitTwo) /\
  List.map quotaType (storageQuotas st2)
    = List.map quotaType (storageQuotas Samples.limitTwo) /\
  profiles st2 = profiles Samples.limitTwo.
Proof.
  cbv zeta. split; [reflexivity|]. split; [reflexivity|].
  apply (@updateQuotaUsage_undone Samples.limitTwo
           (updateQuotaUsage Samples.limitTwo "profile_count" 2)
           (updateQuotaUsage (updateQuotaUsage Samples.limitTwo "profile_count" 2)
              "profile_count" (- 2))
           "profile_count" 2); reflexivity.
Defined.

Lemma quota_types_independent_witness :
  "snapshot_count"%string <> "profile_count"%string /\
  checkQuota (updateQuotaUsage Samples.limitTwo "profile_count" 2) "snapshot_count"
    = checkQuota Samples.limitTwo "snapshot_count" /\
  ("snapshot_count"%string <> "profile_count"%string ->
   checkQuota (fst (createProfile Samples.jsonLength Samples.cache100 Samples.limitTwo
                      Samples.third)) "snapshot_count"
   = checkQuota Samples.limitTwo "snapshot_count").
Proof.
  split; [discriminate|].
  apply (@quota_types_independent Samples.jsonLength Samples.cache100 Samples.limitTwo
           "profile_count" "snapshot_count" 2 Samples.third).
  discriminate.
Defined.

Lemma createProfile_caches_profile_witness :
  let r := Samples.third in
  let st' := fst (createProfile Samples.jsonLength Samples.cache100 Samples.limitTwo r) in
  createProfile Samples.jsonLength Samples.cache100 Samples.limitTwo r = (st', Ok (profileOf r)) /\
  3500 < now r + CacheManager.defaultTTL Samples.cache100 /\
  profileOf r = profileOf r /\
  getProfileCached Samples.cache100 st' 3500 (uuid r) = Some (CachedProfile (profileOf r)).
Proof.
  cbv zeta.
  assert (H1 : createProfile Samples.jsonLength Samples.cache100 Samples.limitTwo Samples.third
               = (fst (createProfile Samples.jsonLength Samples.cache100 Samples.limitTwo
                         Samples.third), Ok (profileOf Samples.third))) by reflexivity.
  assert (H2 : 3500 < now Samples.third + CacheManager.defaultTTL Samples.cache100)
    by reflexivity.
  split; [exact H1|]. split; [exact H2|].
  exact (@createProfile_caches_profile Samples.jsonLength Samples.cache100 _ _ _ _ 3500 H1 H2).
Defined.

Lemma createProfile_keeps_cached_list_witness :
  let r := Samples.third in
  let st' := fst (createProfile Samples.jsonLength Samples.cache100 MoreSamples.listed r) in
  createProfile Samples.jsonLength Samples.cache100 MoreSamples.listed r
    = (st', Ok (profileOf r)) /\
  CacheManager.mirrored (cacheManager MoreSamples.listed) /\
  profiles st' = profiles MoreSamples.listed ++ [profileOf r] /\
  listProfilesCached Samples.cache100 st' 4000
    = listProfilesCached Samples.cache100 MoreSamples.listed 4000.
Proof.
  cbv zeta.
  assert (H1 : createProfile Samples.jsonLength Samples.cache100 MoreSamples.listed Samples.third
               = (fst (createProfile Samples.jsonLength Samples.cache100 MoreSamples.listed
                         Samples.third), Ok (profileOf Samples.third))) by reflexivity.
  assert (H2 : CacheManager.mirrored (cacheManager MoreSamples.listed)).
  { apply CacheMirror.set_mirrored. intros k e He. discriminate He. }
  split; [exact H1|]. split; [exact H2|].
  exact (@createProfile_keeps_cached_list Samples.jsonLength Samples.cache100 _ _ _ _ 4000 H1 H2).
Defined.

End StorageManagerMore.

(** ** StorageManager: the key file and the text cipher *)

Module SecretsFacts.

Import JS StorageManager.

Lemma hexDecode_hexByte (b : byte) (r : string) :
  hexDecode (hexByte b ++ r) = b :: hexDecode r.
Proof. destruct b; reflexivity. Qed.

Lemma hexByte_append (b : byte) (x s : string) :
  ((hexByte b ++ x) ++ s = hexByte b ++ (x ++ s))%string.
Proof. reflexivity. Qed.

Lemma hexDecode_at_colon (s : string) : hexDecode (String ":" s) = [].
Proof. destruct s; reflexivity. Qed.

(** Decoding reads back the bytes of an encoded prefix. *)
Lemma hexDecode_hexEncode_app (l : list byte) (s : string) :
  hexDecode (hexEncode l ++ s) = l ++ hexDecode s.
Proof.
  induction l as [|b r IH]; cbn [hexEncode]; [reflexivity|].
  rewrite hexByte_append, hexDecode_hexByte, IH. reflexivity.
Qed.

Lemma append_empty (s : string) : (s ++ "")%string = s.
Proof. induction s as [|a r IH]; simpl; [reflexivity | now rewrite IH]. Qed.

Lemma hexDecode_hexEncode (l : list byte) : hexDecode (hexEncode l) = l.
Proof.
  rewrite <- (append_empty (hexEncode l)), hexDecode_hexEncode_app.
  simpl. apply app_nil_r.
Qed.

Lemma hexEncode_length (l : list byte) :
  String.length (hexEncode l) = (2 * List.length l)%nat.
Proof.
  induction l as [|b r IH]; [reflexivity|].
  change (hexEncode (b :: r)) with (hexByte b ++ hexEncode r)%string.
  unfold hexByte. cbn [append String.length List.length]. rewrite IH. lia.
Qed.

Lemma includes_app (c : ascii) (a b : string) :
  includes c (a ++ b) = includes c a || includes c b.
Proof.
  induction a as [|x r IH]; simpl; [reflexivity|].
  destruct (Ascii.eqb x c); [reflexivity | exact IH].
Qed.

Lemma hexByte_no_colon (b : byte) : includes ":" (hexByte b) = false.
Proof. destruct b; reflexivity. Qed.

(** No colon is among the digits [toString('hex')] produces. *)
Lemma hexEncode_no_colon (l : list byte) : includes ":" (hexEncode l) = false.
Proof.
  induction l as [|b r IH]; [reflexivity|].
  cbn [hexEncode]. now rewrite includes_app, hexByte_no_colon, IH.
Qed.

Lemma split_at_first (c : ascii) (a b : string) :
  includes c a = false -> split c (a ++ String c b) = a :: split c b.
Proof.
  induction a as [|x r IH]; simpl; intros H.
  - now rewrite Ascii.eqb_refl.
  - destruct (Ascii.eqb x c); [discriminate|]. now rewrite (IH H).
Qed.

Lemma split_none (c : ascii) (s : string) :
  includes c s = false -> split c s = [s].
Proof.
  induction s as [|a r IH]; simpl; intros H; [reflexivity|].
  destruct (Ascii.eqb a c); [discriminate|]. now rewrite (IH H).
Qed.

Lemma substring_all (s : string) : substring 0 (String.length s) s = s.
Proof. induction s as [|a r IH]; simpl; [reflexivity | now rewrite IH]. Qed.

Lemma randomBytes_length (rnd : nat -> byte) (n : nat) :
  List.length (ObjectStorage.randomBytes rnd n) = n.
Proof. unfold ObjectStorage.randomBytes. now rewrite length_map, length_seq. Qed.

(** A generated key is 64 hexadecimal digits, and the cipher reads from it
    the 32 bytes it was generated from. *)
Theorem generateKey_accepted (rnd : nat -> byte) :
  String.length (generateKey rnd) = 64%nat /\
  ObjectStorage.validKey (generateKey rnd) /\
  ObjectStorage.cipherKey (generateKey rnd) = Ok (ObjectStorage.randomBytes rnd 32).
Proof.
  assert (Hlen : String.length (generateKey rnd) = 64%nat).
  { unfold generateKey. now rewrite hexEncode_length, randomBytes_length. }
  assert (Hsub : substring 0 64 (generateKey rnd) = generateKey rnd).
  { rewrite <- Hlen at 1. apply substring_all. }
  split; [exact Hlen|].
  unfold ObjectStorage.validKey, ObjectStorage.cipherKey. rewrite Hsub.
  unfold generateKey. rewrite hexDecode_hexEncode, randomBytes_length.
  split; reflexivity.
Qed.

Section Cipher.

Context {C : ObjectStorage.Codecs} {L : ObjectStorage.CodecLaws C}.

(** With a valid key, [encrypt] succeeds, its result is the hex initialisation
    vector, a colon and the hex ciphertext, and [decrypt] of that result with
    the same key gives the text back. *)
Theorem encrypt_decrypt_roundtrip (rnd : nat -> byte) (ek : string) (text : buffer) :
  ObjectStorage.validKey ek ->
  exists s,
    encryptText rnd ek text = Ok s /\
    split ":" s
    = [hexEncode (ObjectStorage.randomBytes rnd 16);
       hexEncode (ObjectStorage.aesEncrypt (hexDecode (substring 0 64 ek))
                    (ObjectStorage.randomBytes rnd 16) text)] /\
    decryptText ek s = Ok text.
Proof.
  intros Hv.
  assert (Hk : ObjectStorage.cipherKey ek = Ok (hexDecode (substring 0 64 ek))).
  { unfold ObjectStorage.validKey in Hv. unfold ObjectStorage.cipherKey.
    now rewrite Hv. }
  set (iv := ObjectStorage.randomBytes rnd 16).
  set (kb := hexDecode (substring 0 64 ek)) in *.
  set (ct := ObjectStorage.aesEncrypt kb iv text).
  assert (Hsplit : split ":" (hexEncode iv ++ String ":" (hexEncode ct))
                   = hexEncode iv :: split ":" (hexEncode ct)).
  { apply split_at_first, hexEncode_no_colon. }
  exists (hexEncode iv ++ String ":" (hexEncode ct))%string.
  split; [|split].
  - unfold encryptText. rewrite Hk. reflexivity.
  - rewrite Hsplit. f_equal. apply split_none, hexEncode_no_colon.
  - unfold decryptText. rewrite Hk. cbn [bind]. rewrite Hsplit.
    cbn [hd tl]. rewrite JSFacts.join_split, !hexDecode_hexEncode.
    unfold iv at 1. rewrite randomBytes_length. cbn [Nat.eqb].
    unfold ct. rewrite ObjectStorage.aes_inverse; [reflexivity | exact Hv |].
    apply randomBytes_length.
Qed.

(** With a key whose first 64 characters do not decode to 32 bytes, neither
    direction succeeds.  [encrypt] always fails on the key (its IV is 16 fresh
    bytes).  [decrypt] fails on the IV when the part of the text before the
    first colon does not decode to 16 bytes, and on the key otherwise: the IV
    is looked at first. *)
Theorem cipher_rejects_bad_key (rnd : nat -> byte) (ek : string) (text : buffer)
  (s : string) :
  ~ ObjectStorage.validKey ek ->
  encryptText rnd ek text = Err InvalidKeyLength /\
  decryptText ek s
  = if Nat.eqb (List.length (hexDecode (hd EmptyString (split ":" s)))) 16
    then Err InvalidKeyLength else Err InvalidIV.
Proof.
  intros Hv. unfold encryptText, decryptText, ObjectStorage.cipherKey.
  unfold ObjectStorage.validKey in Hv.
  destruct (Nat.eqb_spec (List.length (hexDecode (substring 0 64 ek))) 32);
    [contradiction|].
  split; [reflexivity|].
  destruct (Nat.eqb _ 16); reflexivity.
Qed.

End Cipher.

Section Runs.

Local Existing Instance Framed.codecs.
Local Open Scope string_scope.

Lemma encrypt_decrypt_roundtrip_witness :
  ObjectStorage.validKey Framed.key64 /\
  exists s,
    encryptText Framed.entropy Framed.key64 Framed.blob = Ok s /\
    split ":" s
    = [hexEncode (ObjectStorage.randomBytes Framed.entropy 16);
       hexEncode (ObjectStorage.aesEncrypt (hexDecode (substring 0 64 Framed.key64))
                    (ObjectStorage.randomBytes Framed.entropy 16) Framed.blob)] /\
    decryptText Framed.key64 s = Ok Framed.blob.
Proof.
  split; [reflexivity|].
  apply (@encrypt_decrypt_roundtrip Framed.codecs ObjectStorageFacts.framed_laws
           Framed.entropy Framed.key64 Framed.blob).
  reflexivity.
Defined.

Lemma cipher_rejects_bad_key_witness :
  ~ ObjectStorage.validKey "secret" /\
  encryptText Framed.entropy "secret" Framed.blob = Err InvalidKeyLength /\
  decryptText "secret" "00:00" = Err InvalidIV.
Proof.
  split; [discriminate|].
  apply (@cipher_rejects_bad_key Framed.codecs Framed.entropy "secret" Framed.blob "00:00").
  discriminate.
Defined.

End Runs.

End SecretsFacts.
